(** * train_genre_classifier.py: the data pipeline in front of the trainer

    A shallow embedding of [tools/train_genre_classifier.py]: the version
    check, the dataset loader, the per-track loop of [main] (label
    validation, conversion to float32, resampling to 16 kHz, embedding
    extraction, error accounting), [extract_embeddings], the shuffle and
    the 80/20 split, the report line that indexes [X.shape], and the
    command-line entry point.

    Conventions.
    - A sample is the exact rational value ([Q]) of a finite float.  The
      conversions to float32 (line 118 and lines 73-74) and the float32
      division by 32768 round to the nearest float32, ties to even
      ([astype_float32]).  The float64 arithmetic of the resampler is taken
      exact in [resample]; [new_len_float64] is the length of its output
      with the two roundings of lines 130-131, and is compared with the
      exact one below.  Infinities and NaN are not represented: a value
      that rounds
      beyond the float32 range stays finite here, and [0/0] reads as
      Rocq's [0].
    - A Python exception is a value of [exn]; code that can raise returns a
      [result].
    - What the script obtains from outside (the installed packages, the
      dataset, the pretrained model, the random permutation, the training
      and export stage) is a field of [environment]; the functions below
      [main] take the model as an argument. *)

From Stdlib Require Import String.
From Stdlib Require Import List ZArith QArith Qabs Qround Qminmax Qpower.
From Stdlib Require Import Lia Lqa Permutation Bool PeanoNat.
Import ListNotations.

Local Open Scope Z_scope.

(** ** Exceptions and fallible computations *)

Inductive exn : Type :=
| ZeroDivisionError
| ValueError
| IndexError
| KeyError
| ImportError
| ModelError (code : nat).   (* whatever the pretrained model raises *)

Inductive result (A : Type) : Type :=
| OK (a : A)
| Raise (e : exn).

Arguments OK {A} a.
Arguments Raise {A} e.

Definition bind {A B} (r : result A) (k : A -> result B) : result B :=
  match r with
  | OK a => k a
  | Raise e => Raise e
  end.

Notation "x <- c ;; k" := (bind c (fun x => k))
  (at level 61, c at next level, right associativity).

Definition is_ok {A} (r : result A) : bool :=
  match r with OK _ => true | Raise _ => false end.

(** ** Python and numpy primitives used by the script *)

(** [len(a)] as a Python int. *)
Definition len {A} (a : list A) : Z := Z.of_nat (length a).

(** [int(x)] on a float: truncation toward zero. *)
Definition py_int (x : Q) : Z := Z.quot (Qnum x) (Zpos (Qden x)).

(** [a / b] on Python ints: true division, raising on a zero divisor. *)
Definition py_truediv (a b : Z) : result Q :=
  if b =? 0 then Raise ZeroDivisionError else OK (inject_Z a / inject_Z b)%Q.

(** [np.arange(n)] *)
Definition np_arange (n : nat) : list Q :=
  map (fun i => inject_Z (Z.of_nat i)) (seq 0 n).

(** [np.linspace(start, stop, num)]: [num] evenly spaced points, both ends
    included; a negative [num] is a ValueError. *)
Definition np_linspace (start stop : Q) (num : Z) : result (list Q) :=
  if num <? 0 then Raise ValueError
  else
    let div := num - 1 in
    let step := ((stop - start) / inject_Z div)%Q in
    OK (map (fun i => (start + inject_Z (Z.of_nat i) * step)%Q)
            (seq 0 (Z.to_nat num))).

Definition Qltb (a b : Q) : bool := negb (Qle_bool b a).

(** Index of the last sample point that is [<= x], for [x] not below the
    first point: numpy's [binary_search_with_guess] on an increasing [xp]. *)
Fixpoint search_index (xp : list Q) (x : Q) : nat :=
  match xp with
  | [] => 0
  | _ :: rest =>
      match rest with
      | [] => 0
      | x1 :: _ => if Qle_bool x1 x then S (search_index rest x) else 0
      end
  end.

(** One output sample of [np.interp(x, xp, fp)] with the default [left] and
    [right] (the first and last value of [fp]). *)
Definition interp1 (xp fp : list Q) (x : Q) : Q :=
  if Qltb x (hd 0%Q xp) then hd 0%Q fp
  else if Qltb (last xp 0%Q) x then last fp 0%Q
  else
    let j := search_index xp x in
    if (S j =? length xp)%nat then nth j fp 0%Q
    else if Qeq_bool (nth j xp 0%Q) x then nth j fp 0%Q
    else
      let slope := ((nth (S j) fp 0 - nth j fp 0)
                    / (nth (S j) xp 0 - nth j xp 0))%Q in
      (slope * (x - nth j xp 0) + nth j fp 0)%Q.

(** [np.interp(x, xp, fp)]: an empty [xp] ("array of sample points is
    empty") and an [fp] of another length are ValueErrors. *)
Definition np_interp (x xp fp : list Q) : result (list Q) :=
  match xp with
  | [] => Raise ValueError
  | _ :: _ =>
      if (length fp =? length xp)%nat then OK (map (interp1 xp fp) x)
      else Raise ValueError
  end.

(** [np.abs(a).max()]: the maximum reduction has no identity, so it raises
    on a zero-size array. *)
Definition np_abs_max (a : list Q) : result Q :=
  match a with
  | [] => Raise ValueError
  | x :: rest => OK (fold_left (fun m y => Qmax m (Qabs y)) rest (Qabs x))
  end.

(** ** Conversion to float32 *)

Definition pow2 (e : Z) : Q := (2 ^ e)%Q.

(** The binary exponent of a positive rational: [floor(log2 q)]. *)
Definition ilog2 (q : Q) : Z :=
  let e0 := Z.log2 (Qnum q) - Z.log2 (Zpos (Qden q)) in
  if Qle_bool (pow2 e0) q then e0 else e0 - 1.

(** The nearest integer, a tie going to the even one. *)
Definition round_half_even (q : Q) : Z :=
  let f := Qfloor q in
  match (q - inject_Z f ?= 1 # 2)%Q with
  | Lt => f
  | Gt => f + 1
  | Eq => if Z.even f then f else f + 1
  end.

(** Rounding to the binary format of [prec] significant bits and least
    normal exponent [emin]: the spacing of the format at [q] is
    [2^(e - (prec - 1))] with [e] the exponent of [q], not below [emin]
    (below it the numbers are subnormal, equally spaced). *)
Definition round_binary (prec emin : Z) (q : Q) : Q :=
  if Qeq_bool q 0 then 0%Q
  else
    let e := Z.max (ilog2 (Qabs q)) emin in
    let ulp := pow2 (e - (prec - 1)) in
    (inject_Z (round_half_even (q / ulp)) * ulp)%Q.

(** [x.astype(np.float32)] on one sample: 24 significant bits, least
    normal exponent -126.  A float32 value is left as it is. *)
Definition astype_float32 (x : Q) : Q := round_binary 24 (-126) x.

(** ** The resampler (lines 129-133 of [main])

<<
    if sample_rate != 16000:
        ratio = 16000 / sample_rate
        new_len = int(len(audio) * ratio)
        indices = np.linspace(0, len(audio) - 1, new_len)
        audio = np.interp(indices, np.arange(len(audio)), audio)
>>
    with the quotient, the product and the interpolation exact. *)
Definition resample (audio : list Q) (sample_rate : Z) : result (list Q) :=
  if negb (sample_rate =? 16000) then
    ratio <- py_truediv 16000 sample_rate ;;
    let new_len := py_int (inject_Z (len audio) * ratio)%Q in
    indices <- np_linspace 0 (inject_Z (len audio - 1)) new_len ;;
    np_interp indices (np_arange (length audio)) audio
  else OK audio.

(** Rounding to float64: 53 significant bits, least normal exponent
    -1022. *)
Definition float64 (x : Q) : Q := round_binary 53 (-1022) x.

(** [new_len] as float64 computes it: the quotient of line 130 and the
    product of line 131 are each rounded once, and [int] truncates.  A
    length is a float64 as it is (up to [2^53]). *)
Definition new_len_float64 (L : Z) (sample_rate : Z) : result Z :=
  ratio <- py_truediv 16000 sample_rate ;;
  let ratio := float64 ratio in
  let new_len := py_int (float64 (inject_Z L * ratio)) in
  OK new_len.

(** ** Tensors returned by the pretrained model *)

(** A rank-2 tensor with its shape [(shape0, shape1)]; the shape is kept
    apart from the rows because a tensor with no frame still has a width. *)
Record tensor2 : Type := mkTensor2 {
  shape0 : nat;
  shape1 : nat;
  rows : list (list Q)
}.

Definition Qsum (l : list Q) : Q := fold_left Qplus l 0%Q.

Definition column (t : tensor2) (j : nat) : list Q :=
  map (fun r => nth j r 0%Q) (rows t).

(** [tf.reduce_mean(t, axis=0)]: one mean per column. *)
Definition reduce_mean_axis0 (t : tensor2) : list Q :=
  map (fun j => (Qsum (column t j) / inject_Z (Z.of_nat (shape0 t)))%Q)
      (seq 0 (shape1 t)).

(** What [yamnet_model(waveform)] returns: scores, embeddings, spectrogram. *)
Definition yamnet_output : Type := (tensor2 * tensor2 * tensor2)%type.
Definition yamnet : Type := list Q -> result yamnet_output.

(** ** [extract_embeddings]

<<
    if audio_samples.dtype != np.float32:
        audio_samples = audio_samples.astype(np.float32)
    if np.abs(audio_samples).max() > 1.0:
        audio_samples = audio_samples / 32768.0
    scores, embeddings, spectrogram = yamnet_model(audio_samples)
    avg_embedding = tf.reduce_mean(embeddings, axis=0)
    return avg_embedding.numpy()
>> *)
Definition scale_int16 (audio_samples : list Q) : list Q :=
  (* a float32 array divided by a Python float is a float32 array *)
  map (fun x => astype_float32 (x / (32768 # 1))) audio_samples.

Definition extract_embeddings (audio_samples : list Q) (yamnet_model : yamnet)
  : result (list Q) :=
  (* a float32 array is left as it is by the conversion, so the test on
     the dtype needs no counterpart *)
  let audio_samples := map astype_float32 audio_samples in
  m <- np_abs_max audio_samples ;;
  let audio_samples :=
    if Qltb 1 m then scale_int16 audio_samples else audio_samples in
  out <- yamnet_model audio_samples ;;
  let '(scores, embeddings, spectrogram) := out in
  let avg_embedding := reduce_mean_axis0 embeddings in
  OK avg_embedding.

(** The embedding function applied to a waveform as it is: lines 80-83. *)
Definition apply_yamnet (yamnet_model : yamnet) (waveform : list Q)
  : result (list Q) :=
  out <- yamnet_model waveform ;;
  let '(scores, embeddings, spectrogram) := out in
  OK (reduce_mean_axis0 embeddings).

(** "Integer-scaled": some sample has absolute value exceeding 1.0. *)
Definition integer_scaled (audio_samples : list Q) : Prop :=
  exists x, In x audio_samples /\ (1 < Qabs x)%Q.

(** ** Dataset records *)

Definition GENRES : list string :=
  ["blues"; "classical"; "country"; "disco"; "hiphop";
   "jazz"; "metal"; "pop"; "reggae"; "rock"]%string.

(** The value found under ['genre']: an int (a bool counts as the int 0 or
    1, as everywhere in Python), or an object of another type. *)
Inductive pyobj : Type :=
| PyInt (z : Z)
| PyOther (repr : string).

Record example : Type := mkExample {
  audio_array : list Q;
  sampling_rate : Z;
  genre : pyobj
}.

(** ** Console lines *)

Inductive line : Type :=
| Text (s : string)
| TensorFlowVersion (major minor : Z)
| TensorFlowCompat (major minor : Z) (note : string)
| ExpectedGenres (genres : list string)
| InvalidGenreIndex (genre_idx : pyobj)
| ProcessedTracks (count : nat)
| ErrorProcessingTrack (e : exn)
| TotalProcessed (count errors : nat)
| DatasetSummary (samples features : nat)
| TrainTest (train test : nat)
| UsingSimpleModel.

(** ** The per-track loop of [main] (lines 113-146) *)

Record loop_state : Type := mkLoop {
  embeddings_list : list (list Q);
  labels_list : list Z;
  count : nat;
  errors : nat;
  printed : list line
}.

Definition loop_init : loop_state := mkLoop [] [] 0 0 [].

(** [not isinstance(genre_idx, int) or genre_idx < 0 or
    genre_idx >= len(GENRES)] *)
Definition invalid_genre (genre_idx : pyobj) : bool :=
  match genre_idx with
  | PyInt z => (z <? 0) || (z >=? len GENRES)
  | PyOther _ => true
  end.

Definition label_of (genre_idx : pyobj) : Z :=
  match genre_idx with PyInt z => z | PyOther _ => 0 end.

(** The conversion of line 118, then the body of the [try]: resample if
    needed, then extract.

<<
    audio = np.array(audio_data['array'], dtype=np.float32)
>> *)
Definition process_track (yamnet_model : yamnet) (ex : example)
  : result (list Q) :=
  let audio := map astype_float32 (audio_array ex) in
  audio <- resample audio (sampling_rate ex) ;;
  extract_embeddings audio yamnet_model.

Definition loop_body (yamnet_model : yamnet) (st : loop_state) (ex : example)
  : loop_state :=
  let genre_idx := genre ex in
  if invalid_genre genre_idx then
    (* print, continue *)
    mkLoop (embeddings_list st) (labels_list st) (count st) (errors st)
           (printed st ++ [InvalidGenreIndex genre_idx])
  else
    match process_track yamnet_model ex with
    | OK embedding =>
        let count' := S (count st) in
        mkLoop (embeddings_list st ++ [embedding])
               (labels_list st ++ [label_of genre_idx])
               count' (errors st)
               (printed st ++
                  if (count' mod 100 =? 0)%nat then [ProcessedTracks count']
                  else [])
    | Raise e =>
        let errors' := S (errors st) in
        mkLoop (embeddings_list st) (labels_list st) (count st) errors'
               (printed st ++
                  if (errors' <=? 5)%nat then [ErrorProcessingTrack e]
                  else [])
    end.

Definition track_loop (yamnet_model : yamnet) (dataset : list example)
  (st : loop_state) : loop_state :=
  fold_left (loop_body yamnet_model) dataset st.

(** ** Shuffle and split (lines 156-161 of [main]) *)

(** [a[indices]] with an integer index array: an index past the end is an
    IndexError. *)
Fixpoint np_take {A} (a : list A) (indices : list nat) : result (list A) :=
  match indices with
  | [] => OK []
  | i :: rest =>
      match nth_error a i with
      | None => Raise IndexError
      | Some x => tl <- np_take a rest ;; OK (x :: tl)
      end
  end.

(** [a[:k]] and [a[k:]]; a negative [k] counts from the end. *)
Definition slice_pos {A} (a : list A) (k : Z) : nat :=
  if k <? 0 then Z.to_nat (len a + k) else Z.to_nat k.

Definition slice_to {A} (a : list A) (k : Z) : list A :=
  firstn (slice_pos a k) a.

Definition slice_from {A} (a : list A) (k : Z) : list A :=
  skipn (slice_pos a k) a.

Record partitions (A B : Type) : Type := mkPartitions {
  X_train : list A;
  X_test : list A;
  y_train : list B;
  y_test : list B
}.

Arguments mkPartitions {A B} _ _ _ _.
Arguments X_train {A B} _.
Arguments X_test {A B} _.
Arguments y_train {A B} _.
Arguments y_test {A B} _.

(** [X, y = X[indices], y[indices]] *)
Definition shuffle {A B} (X : list A) (y : list B) (indices : list nat)
  : result (list A * list B) :=
  X' <- np_take X indices ;;
  y' <- np_take y indices ;;
  OK (X', y').

(** [split = int(0.8 * len(X))] *)
Definition split_point {A} (X : list A) : Z :=
  py_int ((8 # 10) * inject_Z (len X))%Q.

Definition train_test_split {A B} (X : list A) (y : list B)
  : partitions A B :=
  let split := split_point X in
  mkPartitions (slice_to X split) (slice_from X split)
               (slice_to y split) (slice_from y split).

Definition shuffle_split {A B} (X : list A) (y : list B)
  (indices : list nat) : result (partitions A B) :=
  Xy <- shuffle X y indices ;;
  OK (train_test_split (fst Xy) (snd Xy)).

(** ** [np.array] of the collected embeddings and [X.shape] *)

(** Shape of [np.array(l)] for a list of vectors: [(0,)] for the empty
    list, [(n, w)] for [n] vectors of one width [w]; vectors of different
    widths are a ValueError (inhomogeneous shape). *)
Definition np_array_shape (l : list (list Q)) : result (list nat) :=
  match l with
  | [] => OK [0%nat]
  | v :: rest =>
      if forallb (fun u => (length u =? length v)%nat) rest
      then OK [length l; length v]
      else Raise ValueError
  end.

(** [shape[i]] on the shape tuple. *)
Definition tuple_get (shape : list nat) (i : nat) : result nat :=
  match nth_error shape i with
  | Some d => OK d
  | None => Raise IndexError
  end.

(** ** Runs of the script: what is printed, what is written, how it ends *)

Record run (A : Type) : Type := mkRun {
  value : result A;
  stdout : list line;
  files : list string
}.

Arguments mkRun {A} _ _ _.
Arguments value {A} _.
Arguments stdout {A} _.
Arguments files {A} _.

Definition ret {A} (a : A) : run A := mkRun (OK a) [] [].

Definition lift {A} (r : result A) : run A := mkRun r [] [].

Definition print (l : line) : run unit := mkRun (OK tt) [l] [].

Definition print_all (ls : list line) : run unit := mkRun (OK tt) ls [].

Definition then_ {A B} (r : run A) (k : A -> run B) : run B :=
  match value r with
  | OK a =>
      let r' := k a in
      mkRun (value r') (stdout r ++ stdout r') (files r ++ files r')
  | Raise e => mkRun (Raise e) (stdout r) (files r)
  end.

Notation "x <~ c ;; k" := (then_ c (fun x => k))
  (at level 61, c at next level, right associativity).
Notation "c ;;; k" := (then_ c (fun _ => k))
  (at level 61, right associativity).

(** What [load_dataset(...)] returns: the rows of each split, by name. *)
Definition dataset_dict : Type := list (string * list example).

(** [dataset[key]]: a missing split is a KeyError. *)
Definition dict_getitem (dataset : dataset_dict) (key : string)
  : result (list example) :=
  match find (fun kv => (fst kv =? key)%string) dataset with
  | Some kv => OK (snd kv)
  | None => Raise KeyError
  end.

(** What the script takes from outside. *)
Record environment : Type := mkEnv {
  tf_version : Z * Z;                      (* tf.__version__, major and minor *)
  import_datasets : result unit;           (* from datasets import load_dataset *)
  (* load_dataset("marsyas/gtzan", "all", trust_remote_code=True) *)
  fetch_dataset : result dataset_dict;
  hub_load : result yamnet;                (* hub.load(YAMNET_MODEL_HANDLE) *)
  np_random_permutation : nat -> list nat; (* np.random.permutation(n) *)
  (* lines 167-263: build, fit, evaluate, convert, save, verify *)
  train_export_verify : partitions (list Q) Z -> run unit
}.

Fixpoint str_mul (s : string) (n : nat) : string :=
  match n with
  | O => EmptyString
  | S n' => (s ++ str_mul s n')%string
  end.

Definition check_tensorflow_version (version : Z * Z) : run unit :=
  let '(major, minor) := version in
  print (TensorFlowVersion major minor) ;;;
  if (major =? 2) && (minor >=? 17) then
    print (TensorFlowCompat major minor
      "Requires Android TFLite 2.17+ (configured in build.gradle)")
  else if (major =? 2) && (minor =? 16) then
    print (Text (str_mul "=" 70)) ;;;
    print (Text "WARNING: TensorFlow 2.16 detected!") ;;;
    print (Text "This may produce FULLY_CONNECTED op v12 which requires TFLite 2.17+ on Android.") ;;;
    print (Text "Make sure Android build.gradle uses tensorflow-lite:2.17.0 or higher.") ;;;
    print (Text (str_mul "=" 70))
  else if (major =? 2) && (minor >=? 14) then
    print (TensorFlowCompat major minor
      "Good! Compatible with most Android TFLite versions.")
  else
    print (TensorFlowCompat major minor "Should be compatible.").

(** [load_gtzan_huggingface]

<<
    from datasets import load_dataset
    print("Loading GTZAN dataset via Hugging Face...")
    print("(This may download ~1.2GB on first run)")
    dataset = load_dataset("marsyas/gtzan", "all", trust_remote_code=True)
    print(f"Dataset loaded: {dataset}")
    return dataset['train']
>> *)
Definition load_gtzan_huggingface (env : environment) : run (list example) :=
  lift (import_datasets env) ;;;
  print (Text "Loading GTZAN dataset via Hugging Face...") ;;;
  print (Text "(This may download ~1.2GB on first run)") ;;;
  dataset <~ lift (fetch_dataset env) ;;
  print (Text "Dataset loaded") ;;;
  lift (dict_getitem dataset "train").

(** What [load_gtzan_huggingface] returns: the rows of the train split, or
    the exception of the first of its three steps that raises. *)
Definition load_dataset (env : environment) : result (list example) :=
  _ <- import_datasets env ;;
  dataset <- fetch_dataset env ;;
  dict_getitem dataset "train".

(** ** [main] *)

(** Lines 86-111: banner, version check, dataset and model loading. *)
Definition startup (env : environment) : run (list example * yamnet) :=
  print (Text (str_mul "=" 60)) ;;;
  print (Text "Music Genre Classifier Training") ;;;
  print (Text "Using YAMNet embeddings + Dense classifier") ;;;
  print (Text (str_mul "=" 60)) ;;;
  check_tensorflow_version (tf_version env) ;;;
  dataset <~ load_gtzan_huggingface env ;;
  print (Text "Loading YAMNet model...") ;;;
  yamnet_model <~ lift (hub_load env) ;;
  print (Text "YAMNet loaded!") ;;;
  print (Text "Extracting embeddings from GTZAN dataset...") ;;;
  print (ExpectedGenres GENRES) ;;;
  ret (dataset, yamnet_model).

(** Lines 113-166 and the call into the rest of [main]: the track loop,
    the report, the shuffle and the split, then training and export. *)
Definition main (env : environment) : run unit :=
  loaded <~ startup env ;;
  let '(dataset, yamnet_model) := loaded in
  let st := track_loop yamnet_model dataset loop_init in
  print_all (printed st) ;;;
  print (TotalProcessed (count st) (errors st)) ;;;
  let X := embeddings_list st in
  let y := labels_list st in
  shape <~ lift (np_array_shape X) ;;
  features <~ lift (tuple_get shape 1) ;;
  print (DatasetSummary (length X) features) ;;;
  let indices := np_random_permutation env (length X) in
  Xy <~ lift (shuffle X y indices) ;;
  let parts := train_test_split (fst Xy) (snd Xy) in
  print (TrainTest (length (X_train parts)) (length (X_test parts))) ;;;
  print (Text "Building classifier model...") ;;;
  train_export_verify env parts.

(** The same environment with another training and export stage. *)
Definition with_stage (env : environment)
  (stage : partitions (list Q) Z -> run unit) : environment :=
  mkEnv (tf_version env) (import_datasets env) (fetch_dataset env)
        (hub_load env) (np_random_permutation env) stage.

(** ** The entry point

<<
    if len(sys.argv) > 1 and sys.argv[1] == "--simple":
        print("Using simple model architecture for better compatibility")
    main()
>> *)
Definition simple_flag (argv : list string) : bool :=
  (1 <? len argv) && (nth 1 argv EmptyString =? "--simple")%string.

Definition script (argv : list string) (env : environment) : run unit :=
  (if simple_flag argv then print UsingSimpleModel else ret tt) ;;;
  main env.

(** ** Statements of the spec, as predicates on the embedding *)

(** The length the spec gives for the resampled track:
    [round(L * 16000 / R)], rounding to the nearest integer (halves up). *)
Definition spec_resampled_length (L : nat) (R : Z) : Z :=
  Qfloor (inject_Z (Z.of_nat L) * (16000 # 1) / inject_Z R + (1 # 2))%Q.

(** The claim of the spec on the resampled length, as a predicate of one
    track: the resampler produces an output and its length is within one
    sample of [round(L * 16000 / R)]. *)
Definition resampled_length_ok (audio : list Q) (R : Z) : Prop :=
  exists out, resample audio R = OK out
    /\ Z.abs (len out - spec_resampled_length (length audio) R) <= 1.



(** The hypothesis on the pretrained model: on every waveform it returns
    per-frame embeddings of width 1024. *)
Definition embeds_1024 (yamnet_model : yamnet) : Prop :=
  forall waveform, exists scores embeddings spectrogram,
    yamnet_model waveform = OK (scores, embeddings, spectrogram)
    /\ shape1 embeddings = 1024%nat.

Definition returns_1024 (yamnet_model : yamnet) (audio : list Q) : Prop :=
  exists v, extract_embeddings audio yamnet_model = OK v
            /\ length v = 1024%nat.

(** *** Tracks, as the loop treats them *)

Definition count_if {A} (p : A -> bool) (l : list A) : nat :=
  length (filter p l).

(** The label of the track is an integer in [[0, hi)]. *)
Definition label_in (hi : Z) (ex : example) : bool :=
  match genre ex with
  | PyInt z => (0 <=? z) && (z <? hi)
  | PyOther _ => false
  end.

(** The track passes the label check and its processing returns. *)
Definition accepted (yamnet_model : yamnet) (ex : example) : bool :=
  label_in 10 ex && is_ok (process_track yamnet_model ex).

(** The track passes the label check and its processing raises. *)
Definition failed (yamnet_model : yamnet) (ex : example) : bool :=
  label_in 10 ex && negb (is_ok (process_track yamnet_model ex)).

(** The track does not pass the label check. *)
Definition rejected (ex : example) : bool := negb (label_in 10 ex).

(** What one track contributes to the two assembled sequences. *)
Definition kept (yamnet_model : yamnet) (ex : example)
  : list (list Q * Z) :=
  if label_in 10 ex then
    match process_track yamnet_model ex with
    | OK embedding => [(embedding, label_of (genre ex))]
    | Raise _ => []
    end
  else [].

(** The exception one track leaves in the [except] branch, if any. *)
Definition raised (yamnet_model : yamnet) (ex : example) : list exn :=
  if label_in 10 ex then
    match process_track yamnet_model ex with
    | OK _ => []
    | Raise e => [e]
    end
  else [].

Definition is_error_line (l : line) : bool :=
  match l with ErrorProcessingTrack _ => true | _ => false end.

Definition is_invalid_line (l : line) : bool :=
  match l with InvalidGenreIndex _ => true | _ => false end.

(** The assembler claim of the spec with its bound [[0, 9)]: both output
    sequences have as many entries as there are tracks labelled in
    [[0, 9)], and every assembled label lies in [[0, 9)]. *)
Definition assembles_labels_below_9 (yamnet_model : yamnet)
  (dataset : list example) : Prop :=
  let st := track_loop yamnet_model dataset loop_init in
  let N := count_if (label_in 9) dataset in
  length (embeddings_list st) = N
  /\ length (labels_list st) = N
  /\ Forall (fun l => 0 <= l < 9) (labels_list st).

(** The failure-handling claim of the spec read on bad labels as on
    exceptions: every failing track is counted in [errors], and at most
    five failures are logged. *)
Definition failures_counted_and_capped (yamnet_model : yamnet)
  (dataset : list example) : Prop :=
  let st := track_loop yamnet_model dataset loop_init in
  errors st = (count_if rejected dataset
               + count_if (failed yamnet_model) dataset)%nat
  /\ (count_if (fun l => is_error_line l || is_invalid_line l) (printed st)
      <= 5)%nat.

(** The train size the spec gives for [N] assembled tracks:
    [floor(0.8 * N)]. *)
Definition spec_train_size (N : nat) : nat :=
  Z.to_nat (Qfloor ((8 # 10) * inject_Z (Z.of_nat N))%Q).

Definition is_progress_line (l : line) : bool :=
  match l with ProcessedTracks _ => true | _ => false end.

(** The lines of the banner (lines 86-89). *)
Definition banner : list line :=
  [Text (str_mul "=" 60); Text "Music Genre Classifier Training";
   Text "Using YAMNet embeddings + Dense classifier";
   Text (str_mul "=" 60)].

(** A tensor whose shape describes its rows. *)
Definition well_shaped (t : tensor2) : Prop :=
  shape0 t = length (rows t)
  /\ Forall (fun r => length r = shape1 t) (rows t).

Definition entries_within (lo hi : Q) (t : tensor2) : Prop :=
  Forall (Forall (fun v => lo <= v <= hi)%Q) (rows t).

(** Every embedding the model returns has width [w]. *)
Definition embeds_width (w : nat) (yamnet_model : yamnet) : Prop :=
  forall waveform scores embeddings spectrogram,
    yamnet_model waveform = OK (scores, embeddings, spectrogram) ->
    shape1 embeddings = w.

(** The integer [i] as a sample point. *)
Definition nat_Q (i : nat) : Q := inject_Z (Z.of_nat i).

(** ** Fixtures: concrete models and tracks on which the results are run *)

(** A model that returns one frame per sample, each frame [width] copies of
    that sample. *)
Definition frame_model (width : nat) : yamnet :=
  fun waveform =>
    let t := mkTensor2 (length waveform) width
                       (map (fun x => repeat x width) waveform) in
    OK (t, t, t).

(** A model that raises on a waveform of fewer than three samples. *)
Definition picky_model : yamnet :=
  fun waveform =>
    if (length waveform <? 3)%nat then Raise (ModelError 0)
    else frame_model 4 waveform.

Definition quiet_track (label : Z) : example :=
  mkExample [1 # 2; -1 # 4; 0 # 1; 1 # 8]%Q 16000 (PyInt label).

Definition short_track (label : Z) : example :=
  mkExample [1 # 2; -1 # 4]%Q 16000 (PyInt label).

Definition empty_track (label : Z) : example :=
  mkExample [] 16000 (PyInt label).

Definition mislabelled_track (g : pyobj) : example :=
  mkExample [1 # 2; -1 # 4]%Q 16000 g.

(** A stage that writes the two files. *)
Definition sample_stage (parts : partitions (list Q) Z) : run unit :=
  mkRun (OK tt) [Text "Training..."]
        ["genre_classifier.tflite"; "genre_classifier.h5"]%string.

(** An environment in which no track is kept: TensorFlow 2.14, a dataset of
    three tracks (one labelled 10, one empty, one with a non-integer
    label), a model and the reversing permutation. *)
Definition barren_env : environment :=
  mkEnv (2, 14) (OK tt)
        (OK [("train"%string,
              [mislabelled_track (PyInt 10); empty_track 3;
               mislabelled_track (PyOther "rock")])])
        (OK (frame_model 4))
        (fun n => rev (seq 0 n))
        sample_stage.

(** An environment whose run goes through: five tracks that are kept, one
    with a bad label and one empty. *)
Definition fertile_env : environment :=
  mkEnv (2, 16) (OK tt)
        (OK [("train"%string,
              [quiet_track 0; mislabelled_track (PyInt 10); quiet_track 9;
               empty_track 3; quiet_track 3; quiet_track 4; quiet_track 5])])
        (OK (frame_model 4))
        (fun n => rev (seq 0 n))
        sample_stage.

(** The tracks of [fertile_env]. *)
Definition fertile_tracks : list example :=
  [quiet_track 0; mislabelled_track (PyInt 10); quiet_track 9;
   empty_track 3; quiet_track 3; quiet_track 4; quiet_track 5].

(** Environments in which loading fails: the import, the call of
    [load_dataset], the look-up of the train split, then the model. *)
Definition importless_env : environment :=
  mkEnv (2, 15) (Raise ImportError) (OK [("train"%string, fertile_tracks)])
        (OK (frame_model 4)) (fun n => rev (seq 0 n)) sample_stage.

Definition offline_env : environment :=
  mkEnv (2, 15) (OK tt) (Raise ValueError) (OK (frame_model 4))
        (fun n => rev (seq 0 n)) sample_stage.

Definition splitless_env : environment :=
  mkEnv (2, 15) (OK tt) (OK [("test"%string, fertile_tracks)])
        (OK (frame_model 4)) (fun n => rev (seq 0 n)) sample_stage.

Definition modelless_env : environment :=
  mkEnv (2, 15) (OK tt) (OK [("train"%string, fertile_tracks)])
        (Raise (ModelError 1)) (fun n => rev (seq 0 n)) sample_stage.

(** * Results *)

(** ** Arithmetic of [int], [floor] and [round] *)

Lemma py_int_nonneg (x : Q) : (0 <= x)%Q -> py_int x = Qfloor x.
Proof.
  destruct x as [n d]. unfold Qle, py_int, Qfloor. simpl. intros H.
  apply Z.quot_div_nonneg; lia.
Qed.

Lemma Qfloor_nonneg (x : Q) : (0 <= x)%Q -> 0 <= Qfloor x.
Proof.
  intros H. change 0 with (Qfloor 0). now apply Qfloor_resp_le.
Qed.

(** Truncating and rounding to nearest differ by at most one. *)
Lemma floor_round_within_one (x x' : Q) :
  (x == x')%Q -> Z.abs (Qfloor x - Qfloor (x' + (1 # 2))) <= 1.
Proof.
  intros E.
  assert (L1 : Qfloor x <= Qfloor (x' + (1 # 2))).
  { apply Qfloor_resp_le. rewrite E.
    rewrite <- (Qplus_0_r x') at 1. apply Qplus_le_r. discriminate. }
  assert (L2 : Qfloor (x' + (1 # 2)) <= Qfloor x + 1).
  { apply Z.lt_succ_r. rewrite Zlt_Qlt.
    apply Qle_lt_trans with (x' + (1 # 2))%Q; [apply Qfloor_le|].
    apply Qlt_le_trans with (inject_Z (Qfloor x + 1) + (1 # 2))%Q.
    - apply Qplus_lt_l. rewrite <- E. apply Qlt_floor.
    - unfold Z.succ. rewrite (inject_Z_plus (Qfloor x + 1) 1).
      apply Qplus_le_r. discriminate. }
  lia.
Qed.

(** ** The resampler *)

Lemma np_arange_length (n : nat) : length (np_arange n) = n.
Proof. unfold np_arange. now rewrite length_map, length_seq. Qed.

Lemma np_linspace_length (start stop : Q) (num : Z) :
  0 <= num ->
  exists pts, np_linspace start stop num = OK pts /\ len pts = num.
Proof.
  intros H. unfold np_linspace.
  destruct (Z.ltb_spec num 0); [lia|].
  eexists; split; [reflexivity|].
  unfold len. rewrite length_map, length_seq. lia.
Qed.

Lemma np_interp_length (x fp : list Q) :
  fp <> [] ->
  exists out, np_interp x (np_arange (length fp)) fp = OK out
              /\ length out = length x.
Proof.
  intros H. destruct fp as [|v fp]; [congruence|].
  unfold np_interp.
  assert (E : length (np_arange (length (v :: fp))) = length (v :: fp))
    by apply np_arange_length.
  destruct (np_arange (length (v :: fp))) as [|p ps] eqn:Ea;
    [discriminate|].
  rewrite E, Nat.eqb_refl.
  eexists; split; [reflexivity|]. apply length_map.
Qed.

(** The exact length produced from a non-empty track at a positive rate. *)
Lemma resample_length (audio : list Q) (R : Z) :
  audio <> [] -> 0 < R -> R <> 16000 ->
  exists out, resample audio R = OK out
    /\ len out = Qfloor (inject_Z (len audio) * (inject_Z 16000 / inject_Z R))%Q.
Proof.
  intros Hne Hpos Hr. unfold resample.
  destruct (Z.eqb_spec R 16000) as [|_]; [contradiction|]. simpl negb.
  unfold py_truediv. destruct (Z.eqb_spec R 0) as [|_]; [lia|]. simpl bind.
  set (x := (inject_Z (len audio) * (inject_Z 16000 / inject_Z R))%Q).
  assert (Hx : (0 <= x)%Q).
  { unfold x. apply Qmult_le_0_compat.
    - change 0%Q with (inject_Z 0). rewrite <- Zle_Qle. unfold len. lia.
    - apply Qle_shift_div_l.
      + change 0%Q with (inject_Z 0). now rewrite <- Zlt_Qlt.
      + rewrite Qmult_0_l. discriminate. }
  rewrite (py_int_nonneg x Hx).
  destruct (np_linspace_length 0 (inject_Z (len audio - 1)) (Qfloor x)
              (Qfloor_nonneg x Hx)) as (pts & -> & Hlen).
  simpl bind.
  destruct (np_interp_length pts audio Hne) as (out & -> & Hout).
  exists out; split; [reflexivity|]. unfold len in *. lia.
Qed.

(** An empty track at a rate other than 16000 leaves [np.interp] without
    sample points. *)
Lemma resample_empty_raises (R : Z) :
  R <> 16000 -> R <> 0 -> resample [] R = Raise ValueError.
Proof.
  intros Hr H0. unfold resample, py_truediv.
  destruct (Z.eqb_spec R 16000); [contradiction|].
  destruct (Z.eqb_spec R 0); [contradiction|]. simpl.
  unfold np_linspace. simpl. reflexivity.
Qed.

(** C3, as stated, fails on the empty waveform: at 22050 Hz the resampler
    raises ValueError instead of producing an output of length 0.  It also
    fails at a rate that is not positive: a rate of 0 is a division by
    zero. *)
Lemma resample_length_empty_counterexample :
  ~ resampled_length_ok [] 22050
  /\ ~ resampled_length_ok [1 # 2]%Q 0.
Proof.
  split; intros (out & H & _); vm_compute in H; discriminate.
Qed.

(** C3 (amended): for every non-empty waveform of length L at a positive
    source rate R other than 16000, the resampler returns an output whose
    length is within one sample of round(L * 16000 / R). *)
Theorem resample_length_within_one (audio : list Q) (R : Z) :
  audio <> [] -> 0 < R -> R <> 16000 ->
  resampled_length_ok audio R.
Proof.
  intros Hne Hpos Hr.
  destruct (resample_length audio R Hne Hpos Hr) as (out & E & Hlen).
  exists out; split; [exact E|].
  rewrite Hlen. unfold spec_resampled_length.
  apply floor_round_within_one.
  unfold len. field.
  intros C. apply (Qeq_bool_neq (inject_Z R) 0); [|exact C].
  destruct R; try lia. reflexivity.
Qed.

Lemma resample_length_within_one_witness :
  resampled_length_ok [1 # 2; 1 # 4; 0 # 1; -1 # 4]%Q 22050.
Proof.
  apply resample_length_within_one; [discriminate | lia | lia].
Defined.

(** C8: at a sample rate of 16000 Hz the resampler returns its input
    unchanged. *)
Theorem resample_identity_16000 (audio : list Q) :
  resample audio 16000 = OK audio.
Proof. reflexivity. Qed.

(** ** The embedding extractor *)

Lemma Qltb_lt (a b : Q) : Qltb a b = true <-> (a < b)%Q.
Proof.
  unfold Qltb. rewrite negb_true_iff, <- not_true_iff_false, Qle_bool_iff.
  split; [apply Qnot_le_lt | apply Qlt_not_le].
Qed.

Lemma fold_max_exceeds (rest : list Q) (acc : Q) :
  (1 < fold_left (fun m y => Qmax m (Qabs y)) rest acc)%Q
  <-> (1 < acc)%Q \/ exists y, In y rest /\ (1 < Qabs y)%Q.
Proof.
  revert acc. induction rest as [|y rest IH]; intros acc; simpl.
  - split; [now left | intros [H | (y & [] & _)]; exact H].
  - rewrite IH, Q.max_lt_iff. split.
    + intros [[H | H] | (z & Hz & H)]; [now left | right | right].
      * exists y; split; [now left | exact H].
      * exists z; split; [now right | exact H].
    + intros [H | (z & [-> | Hz] & H)].
      * left; now left.
      * left; now right.
      * right; exists z; now split.
Qed.

(** The test [np.abs(audio).max() > 1.0] is the test "some sample exceeds
    1.0 in absolute value". *)
Lemma np_abs_max_exceeds (audio : list Q) (m : Q) :
  np_abs_max audio = OK m -> (Qltb 1 m = true <-> integer_scaled audio).
Proof.
  destruct audio as [|x rest]; [discriminate|]. simpl. intros [= <-].
  rewrite Qltb_lt, fold_max_exceeds. unfold integer_scaled. split.
  - intros [H | (y & Hy & H)].
    + exists x; split; [now left | exact H].
    + exists y; split; [now right | exact H].
  - intros (y & [-> | Hy] & H); [now left | right; now exists y].
Qed.

Lemma np_abs_max_nonempty (audio : list Q) :
  audio <> [] -> exists m, np_abs_max audio = OK m.
Proof.
  destruct audio; [congruence|]. intros _. eexists. reflexivity.
Qed.

Lemma extract_embeddings_nonempty (yamnet_model : yamnet) (audio : list Q) :
  audio <> [] ->
  let converted := map astype_float32 audio in
  exists waveform,
    extract_embeddings audio yamnet_model = apply_yamnet yamnet_model waveform
    /\ (integer_scaled converted -> waveform = scale_int16 converted)
    /\ (~ integer_scaled converted -> waveform = converted).
Proof.
  intros Hne converted.
  assert (Hne' : converted <> []).
  { subst converted. destruct audio; [congruence | discriminate]. }
  destruct (np_abs_max_nonempty converted Hne') as [m Hm].
  pose proof (np_abs_max_exceeds converted m Hm) as Hiff.
  unfold extract_embeddings, apply_yamnet. fold converted.
  cbv zeta. rewrite Hm. simpl bind.
  destruct (Qltb 1 m).
  - exists (scale_int16 converted). split; [reflexivity|].
    split; [reflexivity|].
    intros Hn. exfalso. apply Hn, Hiff. reflexivity.
  - exists converted. split; [reflexivity|]. split; [|reflexivity].
    intros Hs. apply Hiff in Hs. discriminate.
Qed.

(** On the empty waveform the maximum reduction raises and the embedding
    function is not applied. *)
Lemma extract_embeddings_empty (yamnet_model : yamnet) :
  extract_embeddings [] yamnet_model = Raise ValueError.
Proof. reflexivity. Qed.

Lemma reduce_mean_axis0_length (t : tensor2) :
  length (reduce_mean_axis0 t) = shape1 t.
Proof. unfold reduce_mean_axis0. now rewrite length_map, length_seq. Qed.

Lemma frame_model_embeds_1024 : embeds_1024 (frame_model 1024).
Proof.
  intros waveform. unfold frame_model.
  do 3 eexists. split; reflexivity.
Qed.




(** C7, as stated, fails on the empty waveform: with a model that returns
    embeddings of width 1024 on every input, the extractor returns no
    vector at all. *)
Lemma extract_empty_counterexample :
  embeds_1024 (frame_model 1024) /\ ~ returns_1024 (frame_model 1024) [].
Proof.
  split; [exact frame_model_embeds_1024|].
  intros (v & H & _). discriminate.
Qed.

(** C7 (amended): for every non-empty waveform, whatever its length, the
    extractor returns a vector of length exactly 1024 when the pretrained
    model returns per-frame embeddings of width 1024: the mean is taken
    over the frame axis only. *)
Theorem extract_embeddings_length (yamnet_model : yamnet) (audio : list Q) :
  embeds_1024 yamnet_model -> audio <> [] ->
  returns_1024 yamnet_model audio.
Proof.
  intros Hm Hne.
  destruct (extract_embeddings_nonempty yamnet_model audio Hne)
    as (w & E & _).
  destruct (Hm w) as (s & e & p & Hw & Hwidth).
  unfold returns_1024. rewrite E. unfold apply_yamnet. rewrite Hw. simpl.
  eexists; split; [reflexivity|].
  now rewrite reduce_mean_axis0_length.
Qed.

Lemma extract_embeddings_length_witness :
  returns_1024 (frame_model 1024) [1 # 2]%Q.
Proof.
  apply extract_embeddings_length;
    [exact frame_model_embeds_1024 | discriminate].
Defined.

(** ** The per-track loop *)

Lemma invalid_genre_label_in (ex : example) :
  invalid_genre (genre ex) = negb (label_in 10 ex).
Proof.
  unfold label_in, invalid_genre. destruct (genre ex) as [z|]; [|reflexivity].
  change (len GENRES) with 10.
  destruct (Z.ltb_spec z 0), (Z.geb_spec z 10), (Z.leb_spec 0 z),
    (Z.ltb_spec z 10); simpl; try reflexivity; lia.
Qed.

Lemma count_if_app {A} (p : A -> bool) (l1 l2 : list A) :
  count_if p (l1 ++ l2) = (count_if p l1 + count_if p l2)%nat.
Proof. unfold count_if. now rewrite filter_app, length_app. Qed.

Lemma count_if_cons {A} (p : A -> bool) (x : A) (l : list A) :
  count_if p (x :: l) = ((if p x then 1 else 0) + count_if p l)%nat.
Proof. unfold count_if. simpl. now destruct (p x). Qed.

(** One iteration, by the three ways a track can go. *)
Lemma loop_body_rejected ym st ex :
  label_in 10 ex = false ->
  loop_body ym st ex
  = mkLoop (embeddings_list st) (labels_list st) (count st) (errors st)
           (printed st ++ [InvalidGenreIndex (genre ex)]).
Proof.
  intros H. unfold loop_body. now rewrite invalid_genre_label_in, H.
Qed.

Lemma loop_body_accepted ym st ex embedding :
  label_in 10 ex = true -> process_track ym ex = OK embedding ->
  loop_body ym st ex
  = mkLoop (embeddings_list st ++ [embedding])
           (labels_list st ++ [label_of (genre ex)])
           (S (count st)) (errors st)
           (printed st ++
              if (S (count st) mod 100 =? 0)%nat
              then [ProcessedTracks (S (count st))] else []).
Proof.
  intros H E. unfold loop_body. now rewrite invalid_genre_label_in, H, E.
Qed.

Lemma loop_body_failed ym st ex e :
  label_in 10 ex = true -> process_track ym ex = Raise e ->
  loop_body ym st ex
  = mkLoop (embeddings_list st) (labels_list st) (count st) (S (errors st))
           (printed st ++
              if (S (errors st) <=? 5)%nat
              then [ErrorProcessingTrack e] else []).
Proof.
  intros H E. unfold loop_body. now rewrite invalid_genre_label_in, H, E.
Qed.

(** The class of a track, by the same three cases. *)
Lemma class_accepted ym ex embedding :
  label_in 10 ex = true -> process_track ym ex = OK embedding ->
  kept ym ex = [(embedding, label_of (genre ex))]
  /\ accepted ym ex = true /\ failed ym ex = false /\ rejected ex = false
  /\ raised ym ex = [].
Proof.
  intros H E. unfold kept, accepted, failed, rejected, raised.
  now rewrite H, E.
Qed.

Lemma class_failed ym ex e :
  label_in 10 ex = true -> process_track ym ex = Raise e ->
  kept ym ex = []
  /\ accepted ym ex = false /\ failed ym ex = true /\ rejected ex = false
  /\ raised ym ex = [e].
Proof.
  intros H E. unfold kept, accepted, failed, rejected, raised.
  now rewrite H, E.
Qed.

Lemma class_rejected ym ex :
  label_in 10 ex = false ->
  kept ym ex = []
  /\ accepted ym ex = false /\ failed ym ex = false /\ rejected ex = true
  /\ raised ym ex = [].
Proof.
  intros H. unfold kept, accepted, failed, rejected, raised.
  now rewrite H.
Qed.

(** Split an iteration into its three cases, rewriting the body of the
    loop and the class of the track. *)
Ltac loop_cases ym st ex :=
  let Hl := fresh "Hlabel" in
  let Hp := fresh "Hproc" in
  let Hk := fresh "Hkept" in
  let Ha := fresh "Hacc" in
  let Hf := fresh "Hfail" in
  let Hr := fresh "Hrej" in
  let He := fresh "Hraised" in
  destruct (label_in 10 ex) eqn:Hl;
  [ destruct (process_track ym ex) as [?embedding | ?e] eqn:Hp;
    [ rewrite (loop_body_accepted ym st ex _ Hl Hp);
      destruct (class_accepted ym ex _ Hl Hp) as (Hk & Ha & Hf & Hr & He)
    | rewrite (loop_body_failed ym st ex _ Hl Hp);
      destruct (class_failed ym ex _ Hl Hp) as (Hk & Ha & Hf & Hr & He) ]
  | rewrite (loop_body_rejected ym st ex Hl);
    destruct (class_rejected ym ex Hl) as (Hk & Ha & Hf & Hr & He) ];
  rewrite ?Hk, ?Ha, ?Hf, ?Hr, ?He.

Lemma track_loop_cons ym ex ds st :
  track_loop ym (ex :: ds) st = track_loop ym ds (loop_body ym st ex).
Proof. reflexivity. Qed.

(** The assembled sequences: the contributions of the tracks, in order. *)
Lemma track_loop_assembled ym ds : forall st,
  embeddings_list (track_loop ym ds st)
  = embeddings_list st ++ map fst (flat_map (kept ym) ds)
  /\ labels_list (track_loop ym ds st)
  = labels_list st ++ map snd (flat_map (kept ym) ds).
Proof.
  induction ds as [|ex ds IH]; intros st.
  - simpl. now rewrite !app_nil_r.
  - rewrite track_loop_cons. destruct (IH (loop_body ym st ex)) as [-> ->].
    simpl flat_map. rewrite !map_app.
    loop_cases ym st ex; simpl; rewrite <- ?app_assoc; simpl; auto.
Qed.

Lemma track_loop_counters ym ds : forall st,
  count (track_loop ym ds st) = (count st + count_if (accepted ym) ds)%nat
  /\ errors (track_loop ym ds st)
     = (errors st + count_if (failed ym) ds)%nat.
Proof.
  induction ds as [|ex ds IH]; intros st.
  - simpl. unfold count_if. simpl. lia.
  - rewrite track_loop_cons. destruct (IH (loop_body ym st ex)) as [-> ->].
    rewrite !count_if_cons.
    loop_cases ym st ex; simpl; lia.
Qed.

Lemma kept_length ym ds :
  length (flat_map (kept ym) ds) = count_if (accepted ym) ds.
Proof.
  induction ds as [|ex ds IH]; [reflexivity|].
  simpl flat_map. rewrite length_app, IH, count_if_cons.
  unfold kept, accepted.
  destruct (label_in 10 ex); [|reflexivity].
  now destruct (process_track ym ex).
Qed.

Lemma kept_labels_in_range ym ds :
  Forall (fun l => 0 <= l < 10) (map snd (flat_map (kept ym) ds)).
Proof.
  induction ds as [|ex ds IH]; [constructor|].
  simpl flat_map. rewrite map_app. apply Forall_app. split; [|exact IH].
  unfold kept, label_in, label_of.
  destruct (genre ex) as [z|]; [|constructor].
  destruct (Z.leb_spec 0 z), (Z.ltb_spec z 10); simpl; try constructor.
  destruct (process_track ym ex); simpl; constructor; [lia | constructor].
Qed.

(** Every track is in exactly one of the three classes. *)
Lemma track_classes ym ds :
  (count_if (accepted ym) ds + count_if (failed ym) ds
   + count_if rejected ds = length ds)%nat.
Proof.
  induction ds as [|ex ds IH]; [reflexivity|].
  rewrite !count_if_cons. simpl length.
  unfold accepted at 1, failed at 1, rejected at 1.
  destruct (label_in 10 ex), (is_ok (process_track ym ex)); simpl; lia.
Qed.

(** The log of the loop: one line per rejected label, in order. *)
Lemma track_loop_invalid_lines ym ds : forall st,
  filter is_invalid_line (printed (track_loop ym ds st))
  = filter is_invalid_line (printed st)
    ++ map (fun ex => InvalidGenreIndex (genre ex)) (filter rejected ds).
Proof.
  induction ds as [|ex ds IH]; intros st.
  - simpl. now rewrite app_nil_r.
  - rewrite track_loop_cons, IH. cbn [filter].
    loop_cases ym st ex; cbn [printed]; rewrite filter_app.
    + destruct (S (count st) mod 100 =? 0)%nat; cbn; now rewrite app_nil_r.
    + destruct (S (errors st) <=? 5)%nat; cbn; now rewrite app_nil_r.
    + cbn. now rewrite <- app_assoc.
Qed.

Lemma firstn_snoc {A} (n : nat) (l : list A) (x : A) :
  firstn n (l ++ [x])
  = firstn n l ++ (if (S (length l) <=? n)%nat then [x] else []).
Proof.
  rewrite firstn_app. f_equal.
  destruct (Nat.leb_spec (S (length l)) n) as [H | H].
  - destruct (n - length l)%nat eqn:E; [lia|].
    simpl. now rewrite firstn_nil.
  - replace (n - length l)%nat with 0%nat by lia. reflexivity.
Qed.

(** The error lines are those of the first five exceptions: with [excs]
    the exceptions caught so far, the invariant is kept by every track. *)
Lemma track_loop_error_lines ym ds : forall st excs,
  errors st = length excs ->
  filter is_error_line (printed st)
  = map ErrorProcessingTrack (firstn 5 excs) ->
  filter is_error_line (printed (track_loop ym ds st))
  = map ErrorProcessingTrack (firstn 5 (excs ++ flat_map (raised ym) ds)).
Proof.
  induction ds as [|ex ds IH]; intros st excs Hn Hst.
  - simpl. now rewrite app_nil_r.
  - rewrite track_loop_cons. cbn [flat_map].
    loop_cases ym st ex.
    + apply IH; cbn [printed errors]; [exact Hn|].
      rewrite filter_app, Hst.
      destruct (S (count st) mod 100 =? 0)%nat; cbn; now rewrite app_nil_r.
    + rewrite app_assoc. apply IH; cbn [printed errors].
      * rewrite length_app. simpl. lia.
      * rewrite filter_app, Hst, firstn_snoc, map_app, Hn.
        now destruct (S (length excs) <=? 5)%nat.
    + apply IH; cbn [printed errors]; [exact Hn|].
      rewrite filter_app, Hst. cbn. now rewrite app_nil_r.
Qed.

Lemma raised_length ym ds :
  length (flat_map (raised ym) ds) = count_if (failed ym) ds.
Proof.
  induction ds as [|ex ds IH]; [reflexivity|].
  cbn [flat_map]. rewrite length_app, IH, count_if_cons.
  unfold raised, failed.
  destruct (label_in 10 ex); [|reflexivity].
  now destruct (process_track ym ex).
Qed.

(** C1, as stated, fails in two ways.  A track labelled 9 ("rock") is
    assembled although 9 is outside [[0, 9)]; and a track labelled 3 on
    which the model raises is not assembled although its label is valid. *)
Lemma assembler_counterexample :
  ~ assembles_labels_below_9 (frame_model 4) [quiet_track 9]
  /\ ~ assembles_labels_below_9 picky_model [short_track 3].
Proof.
  split; intros (H & _); vm_compute in H; discriminate.
Qed.

(** C1 (amended): with N the number of tracks whose label is an integer in
    [[0, 10)] and whose resampling and extraction succeed, and M the number
    of all other tracks, both assembled sequences have length exactly N,
    and no label outside [[0, 10)] appears in the assembled labels. *)
Theorem assembler_lengths_and_labels (yamnet_model : yamnet)
  (dataset : list example) :
  let st := track_loop yamnet_model dataset loop_init in
  let N := count_if (accepted yamnet_model) dataset in
  let M := count_if (fun ex => negb (accepted yamnet_model ex)) dataset in
  length (embeddings_list st) = N
  /\ length (labels_list st) = N
  /\ (N + M = length dataset)%nat
  /\ Forall (fun l => 0 <= l < 10) (labels_list st).
Proof.
  intros st N M. subst st N M.
  destruct (track_loop_assembled yamnet_model dataset loop_init) as [-> ->].
  simpl. rewrite !length_map, kept_length.
  repeat split; auto using kept_labels_in_range.
  unfold count_if. induction dataset as [|ex ds IH]; [reflexivity|].
  simpl. destruct (accepted yamnet_model ex); simpl; lia.
Qed.

(** C4, as stated, fails for bad labels: six tracks labelled 10 leave the
    error count at 0 and print six lines. *)
Lemma bad_label_counterexample :
  let dataset := repeat (mislabelled_track (PyInt 10)) 6 in
  let st := track_loop (frame_model 4) dataset loop_init in
  errors st = 0%nat
  /\ count_if is_invalid_line (printed st) = 6%nat
  /\ ~ failures_counted_and_capped (frame_model 4) dataset.
Proof.
  repeat split. intros (H & _). vm_compute in H. discriminate.
Qed.

(** Seven tracks on which the model raises: seven errors counted, five
    lines printed, nothing assembled. *)
Example seven_failures_five_lines :
  let st := track_loop picky_model (repeat (short_track 3) 7) loop_init in
  errors st = 7%nat
  /\ printed st = repeat (ErrorProcessingTrack (ModelError 0)) 5
  /\ embeddings_list st = [].
Proof. vm_compute. repeat split. Qed.

(** C4 (amended): a resampling or extraction exception is caught, counted
    in [errors] and logged for the first five occurrences only; a bad label
    is logged at every occurrence and is not counted; in both cases that
    track alone is dropped (every other track contributes its pair, in
    order) and the loop goes on to the end of the dataset. *)
Theorem track_failures_absorbed (yamnet_model : yamnet)
  (dataset : list example) :
  let st := track_loop yamnet_model dataset loop_init in
  errors st = count_if (failed yamnet_model) dataset
  /\ filter is_error_line (printed st)
     = map ErrorProcessingTrack
           (firstn 5 (flat_map (raised yamnet_model) dataset))
  /\ filter is_invalid_line (printed st)
     = map (fun ex => InvalidGenreIndex (genre ex)) (filter rejected dataset)
  /\ combine (embeddings_list st) (labels_list st)
     = flat_map (kept yamnet_model) dataset
  /\ (length (embeddings_list st) + count_if (failed yamnet_model) dataset
      + count_if rejected dataset = length dataset)%nat.
Proof.
  intros st. subst st.
  pose proof (track_loop_counters yamnet_model dataset loop_init) as [_ Herr].
  pose proof (track_loop_error_lines yamnet_model dataset loop_init []
                eq_refl eq_refl) as Hlines.
  pose proof (track_loop_invalid_lines yamnet_model dataset loop_init)
    as Hinv.
  destruct (track_loop_assembled yamnet_model dataset loop_init) as [Hx Hy].
  simpl in Herr, Hinv, Hx, Hy, Hlines.
  repeat split.
  - exact Herr.
  - exact Hlines.
  - exact Hinv.
  - rewrite Hx, Hy. clear.
    induction (flat_map (kept yamnet_model) dataset) as [|[e l] r IH];
      [reflexivity | simpl; now rewrite IH].
  - rewrite Hx, length_map, kept_length. apply track_classes.
Qed.

(** ** Integer-array indexing *)

Lemma np_take_cons {A} (a : list A) (i : nat) (rest : list nat) (l : list A) :
  np_take a (i :: rest) = OK l <->
  exists x tl, nth_error a i = Some x /\ np_take a rest = OK tl
               /\ l = x :: tl.
Proof.
  simpl. destruct (nth_error a i) as [x|].
  - destruct (np_take a rest) as [tl|e]; simpl.
    + split.
      * intros [= <-]. now exists x, tl.
      * intros (x' & tl' & [= <-] & [= <-] & ->). reflexivity.
    + split; [discriminate | intros (? & ? & _ & H & _); discriminate].
  - split; [discriminate | intros (? & ? & H & _); discriminate].
Qed.

(** Position [i] of [a[indices]] holds the element of [a] at [indices[i]]. *)
Lemma np_take_lookup {A} (a : list A) (indices : list nat) :
  forall l, np_take a indices = OK l ->
  forall i j, nth_error indices i = Some j -> nth_error l i = nth_error a j.
Proof.
  induction indices as [|k rest IH]; intros l H i j Hi.
  - destruct i; discriminate.
  - apply np_take_cons in H as (x & tl & Hx & Htl & ->).
    destruct i as [|i]; simpl in *.
    + injection Hi as <-. now rewrite Hx.
    + eapply IH; eauto.
Qed.

Lemma np_take_length {A} (a : list A) (indices : list nat) :
  forall l, np_take a indices = OK l -> length l = length indices.
Proof.
  induction indices as [|k rest IH]; intros l H.
  - injection H as <-. reflexivity.
  - apply np_take_cons in H as (x & tl & _ & Htl & ->).
    simpl. now rewrite (IH tl Htl).
Qed.

(** Indexing by a rearranged index array rearranges the result. *)
Lemma np_take_permutation {A} (a : list A) (idx idx' : list nat) :
  Permutation idx idx' ->
  forall l, np_take a idx = OK l ->
  exists l', np_take a idx' = OK l' /\ Permutation l l'.
Proof.
  induction 1 as [| k idx idx' _ IH | k1 k2 idx | idx1 idx2 idx3 _ IH1 _ IH2];
    intros l H.
  - exists l. split; [exact H | apply Permutation_refl].
  - apply np_take_cons in H as (x & tl & Hx & Htl & ->).
    destruct (IH tl Htl) as (tl' & E & P).
    exists (x :: tl'). split; [|now constructor].
    apply np_take_cons. now exists x, tl'.
  - apply np_take_cons in H as (x2 & tl2 & Hx2 & Htl2 & ->).
    apply np_take_cons in Htl2 as (x1 & tl & Hx1 & Htl & ->).
    exists (x1 :: x2 :: tl). split; [|apply perm_swap].
    apply np_take_cons. exists x1, (x2 :: tl). repeat split; auto.
    apply np_take_cons. now exists x2, tl.
  - destruct (IH1 l H) as (l2 & E2 & P2).
    destruct (IH2 l2 E2) as (l3 & E3 & P3).
    exists l3. split; [exact E3 | now transitivity l2].
Qed.

Lemma np_take_seq {A} (pre a : list A) :
  np_take (pre ++ a) (seq (length pre) (length a)) = OK a.
Proof.
  revert pre. induction a as [|x a IH]; intros pre; [reflexivity|].
  simpl length. simpl seq. apply np_take_cons. exists x, a.
  repeat split.
  - rewrite nth_error_app2, Nat.sub_diag by lia. reflexivity.
  - specialize (IH (pre ++ [x])).
    rewrite <- app_assoc, length_app in IH. simpl in IH.
    now rewrite Nat.add_1_r in IH.
Qed.

(** Indexing by a permutation of [0 .. len(a) - 1] succeeds and yields a
    rearrangement of [a]. *)
Lemma np_take_shuffles {A} (a : list A) (indices : list nat) :
  Permutation indices (seq 0 (length a)) ->
  exists l, np_take a indices = OK l /\ Permutation l a.
Proof.
  intros P.
  destruct (np_take_permutation a _ _ (Permutation_sym P) a
              (np_take_seq [] a)) as (l & E & Pl).
  exists l. split; [exact E | now apply Permutation_sym].
Qed.

Lemma nth_error_combine {A B} (X : list A) (y : list B) :
  forall i x v, nth_error X i = Some x -> nth_error y i = Some v ->
  nth_error (combine X y) i = Some (x, v).
Proof.
  revert y. induction X as [|x0 X IH]; intros y i x v Hx Hv.
  - destruct i; discriminate.
  - destruct y as [|v0 y]; [destruct i; discriminate|].
    destruct i as [|i]; simpl in *.
    + now injection Hx as <-; injection Hv as <-.
    + now apply IH.
Qed.

(** Indexing both sequences by one index array is indexing the sequence
    of pairs. *)
Lemma np_take_combine {A B} (X : list A) (y : list B) (indices : list nat) :
  forall X' y', np_take X indices = OK X' -> np_take y indices = OK y' ->
  np_take (combine X y) indices = OK (combine X' y').
Proof.
  induction indices as [|k rest IH]; intros X' y' HX Hy.
  - injection HX as <-. reflexivity.
  - apply np_take_cons in HX as (x & Xtl & Hx & HXtl & ->).
    apply np_take_cons in Hy as (v & ytl & Hv & Hytl & ->).
    apply np_take_cons. exists (x, v), (combine Xtl ytl).
    repeat split; auto using nth_error_combine.
Qed.

Lemma skipn_combine {A B} (n : nat) :
  forall (X : list A) (y : list B),
  skipn n (combine X y) = combine (skipn n X) (skipn n y).
Proof.
  induction n as [|n IH]; intros X y; [reflexivity|].
  destruct X as [|x X]; [reflexivity|].
  destruct y as [|v y]; simpl; [now rewrite combine_nil | apply IH].
Qed.

(** ** Shuffle *)

Lemma shuffle_ok {A B} (X : list A) (y : list B) (indices : list nat) :
  length X = length y ->
  Permutation indices (seq 0 (length X)) ->
  exists X' y', shuffle X y indices = OK (X', y')
    /\ np_take X indices = OK X' /\ np_take y indices = OK y'
    /\ Permutation X' X /\ Permutation y' y
    /\ Permutation (combine X' y') (combine X y).
Proof.
  intros Hlen P.
  destruct (np_take_shuffles X indices P) as (X' & EX & PX).
  assert (Py : Permutation indices (seq 0 (length y))) by now rewrite <- Hlen.
  destruct (np_take_shuffles y indices Py) as (y' & Ey & Pyy).
  exists X', y'. unfold shuffle. rewrite EX, Ey. simpl.
  repeat split; auto.
  assert (Pc : Permutation indices (seq 0 (length (combine X y)))).
  { rewrite length_combine, <- Hlen, Nat.min_id. exact P. }
  destruct (np_take_shuffles (combine X y) indices Pc) as (c & Ec & Pcc).
  rewrite (np_take_combine X y indices X' y' EX Ey) in Ec.
  now injection Ec as <-.
Qed.

(** C5: the shuffle applies one permutation of the indices to both
    sequences: position [i] of both shuffled sequences comes from the same
    input position [indices[i]], so every shuffled (embedding, label) pair
    is a pair of the input, and the multiset of pairs is preserved. *)
Theorem shuffle_preserves_pairing {A B} (X : list A) (y : list B)
  (indices : list nat) :
  length X = length y ->
  Permutation indices (seq 0 (length X)) ->
  exists X' y', shuffle X y indices = OK (X', y')
    /\ length X' = length X /\ length y' = length y
    /\ (forall i j, nth_error indices i = Some j ->
          nth_error X' i = nth_error X j /\ nth_error y' i = nth_error y j)
    /\ (forall p, In p (combine X' y') -> In p (combine X y))
    /\ Permutation (combine X' y') (combine X y).
Proof.
  intros Hlen P.
  destruct (shuffle_ok X y indices Hlen P)
    as (X' & y' & E & EX & Ey & PX & Py & Pc).
  exists X', y'. repeat split.
  - exact E.
  - now apply Permutation_length.
  - now apply Permutation_length.
  - eapply np_take_lookup; eauto.
  - eapply np_take_lookup; eauto.
  - intros p. now apply Permutation_in.
  - exact Pc.
Qed.

Lemma shuffle_preserves_pairing_witness :
  exists X' y',
    shuffle [[1 # 2]; [1 # 3]; [1 # 4]]%Q [7; 0; 9] [2; 0; 1]%nat
    = OK (X', y')
    /\ length X' = 3%nat /\ length y' = 3%nat
    /\ (forall i j, nth_error [2; 0; 1]%nat i = Some j ->
          nth_error X' i = nth_error [[1 # 2]; [1 # 3]; [1 # 4]]%Q j
          /\ nth_error y' i = nth_error [7; 0; 9] j)
    /\ (forall p, In p (combine X' y') ->
          In p (combine [[1 # 2]; [1 # 3]; [1 # 4]]%Q [7; 0; 9]))
    /\ Permutation (combine X' y')
                   (combine [[1 # 2]; [1 # 3]; [1 # 4]]%Q [7; 0; 9]).
Proof.
  apply (shuffle_preserves_pairing
           [[1 # 2]; [1 # 3]; [1 # 4]]%Q [7; 0; 9] [2; 0; 1]%nat).
  - reflexivity.
  - simpl. apply Permutation_sym.
    apply perm_trans with [0; 2; 1]%nat;
      [apply perm_skip, perm_swap | apply perm_swap].
Defined.

(** ** Split *)

Lemma split_point_floor {A} (X : list A) :
  split_point X = Z.of_nat (spec_train_size (length X))
  /\ (spec_train_size (length X) <= length X)%nat.
Proof.
  unfold split_point, spec_train_size, len.
  set (N := Z.of_nat (length X)).
  assert (H0 : (0 <= (8 # 10) * inject_Z N)%Q).
  { apply Qmult_le_0_compat; [discriminate|].
    change 0%Q with (inject_Z 0). rewrite <- Zle_Qle. unfold N. lia. }
  rewrite (py_int_nonneg _ H0).
  pose proof (Qfloor_nonneg _ H0) as Hf.
  assert (Hle : Qfloor ((8 # 10) * inject_Z N) <= N).
  { rewrite <- (Qfloor_Z N) at 2. apply Qfloor_resp_le.
    rewrite <- (Qmult_1_l (inject_Z N)) at 2.
    apply Qmult_le_compat_r; [discriminate|].
    change 0%Q with (inject_Z 0). rewrite <- Zle_Qle. unfold N. lia. }
  split; [now rewrite Z2Nat.id | subst N; lia].
Qed.

(** [floor(0.8 * N)] in integer arithmetic. *)
Lemma spec_train_size_div (N : nat) : spec_train_size N = (4 * N / 5)%nat.
Proof.
  unfold spec_train_size.
  assert (E : ((8 # 10) * inject_Z (Z.of_nat N)
               == inject_Z (4 * Z.of_nat N) / inject_Z 5)%Q).
  { rewrite inject_Z_mult. field. }
  assert (F : Qfloor ((8 # 10) * inject_Z (Z.of_nat N))
              = Qfloor (inject_Z (4 * Z.of_nat N) / inject_Z 5)).
  { apply Z.le_antisymm; apply Qfloor_resp_le; rewrite E; apply Qle_refl. }
  rewrite F, <- Zdiv_Qdiv.
  rewrite <- (Nat2Z.id (4 * N / 5)). f_equal.
  rewrite Nat2Z.inj_div, Nat2Z.inj_mul. reflexivity.
Qed.

Lemma slice_pos_nonneg {A} (a : list A) (k : nat) :
  slice_pos a (Z.of_nat k) = k.
Proof.
  unfold slice_pos. destruct (Z.ltb_spec (Z.of_nat k) 0); [lia|].
  apply Nat2Z.id.
Qed.

(** The split alone: sizes, and the two slices put back together. *)
Lemma train_test_split_spec {A B} (X : list A) (y : list B) :
  length X = length y ->
  let parts := train_test_split X y in
  let n := spec_train_size (length X) in
  length (X_train parts) = n
  /\ length (X_test parts) = (length X - n)%nat
  /\ length (y_train parts) = n
  /\ length (y_test parts) = (length X - n)%nat
  /\ X_train parts ++ X_test parts = X
  /\ y_train parts ++ y_test parts = y
  /\ combine (X_train parts) (y_train parts)
     ++ combine (X_test parts) (y_test parts) = combine X y.
Proof.
  intros Hlen parts n. subst parts n. unfold train_test_split.
  destruct (split_point_floor X) as [-> Hle]. simpl.
  unfold slice_to, slice_from. rewrite !slice_pos_nonneg.
  set (n := spec_train_size (length X)) in *.
  rewrite !length_firstn, !length_skipn, <- Hlen.
  repeat split; try lia; try apply firstn_skipn.
  rewrite <- combine_firstn, <- skipn_combine. apply firstn_skipn.
Qed.

(** C2: for N assembled tracks the train partition has exactly
    floor(0.8 * N) examples and the test partition the other
    N - floor(0.8 * N); train followed by test is a rearrangement of the
    assembled examples, so each example is in exactly one partition, none
    twice and none left out. *)
Theorem split_sizes_and_partition {A B} (X : list A) (y : list B)
  (indices : list nat) :
  length X = length y ->
  Permutation indices (seq 0 (length X)) ->
  let N := length X in
  exists parts, shuffle_split X y indices = OK parts
    /\ length (X_train parts) = spec_train_size N
    /\ length (X_test parts) = (N - spec_train_size N)%nat
    /\ length (y_train parts) = spec_train_size N
    /\ length (y_test parts) = (N - spec_train_size N)%nat
    /\ Permutation (X_train parts ++ X_test parts) X
    /\ Permutation (y_train parts ++ y_test parts) y
    /\ Permutation (combine (X_train parts) (y_train parts)
                    ++ combine (X_test parts) (y_test parts))
                   (combine X y).
Proof.
  intros Hlen P N. subst N.
  destruct (shuffle_ok X y indices Hlen P)
    as (X' & y' & E & _ & _ & PX & Py & Pc).
  assert (HX : length X' = length X) by now apply Permutation_length.
  assert (Hy : length y' = length y) by now apply Permutation_length.
  assert (Hlen' : length X' = length y') by congruence.
  destruct (train_test_split_spec X' y' Hlen')
    as (S1 & S2 & S3 & S4 & S5 & S6 & S7).
  exists (train_test_split X' y'). unfold shuffle_split. rewrite E.
  cbn [bind fst snd].
  rewrite HX in S1, S2, S3, S4. rewrite S5, S6, S7.
  repeat split; assumption.
Qed.

Lemma split_sizes_and_partition_witness :
  exists parts,
    shuffle_split [[1 # 2]; [1 # 3]; [1 # 4]]%Q [7; 0; 9] [2; 0; 1]%nat
    = OK parts
    /\ length (X_train parts) = 2%nat /\ length (X_test parts) = 1%nat
    /\ length (y_train parts) = 2%nat /\ length (y_test parts) = 1%nat
    /\ Permutation (X_train parts ++ X_test parts)
                   [[1 # 2]; [1 # 3]; [1 # 4]]%Q
    /\ Permutation (y_train parts ++ y_test parts) [7; 0; 9]
    /\ Permutation (combine (X_train parts) (y_train parts)
                    ++ combine (X_test parts) (y_test parts))
                   (combine [[1 # 2]; [1 # 3]; [1 # 4]]%Q [7; 0; 9]).
Proof.
  apply (split_sizes_and_partition
           [[1 # 2]; [1 # 3]; [1 # 4]]%Q [7; 0; 9] [2; 0; 1]%nat).
  - reflexivity.
  - simpl. apply Permutation_sym.
    apply perm_trans with [0; 2; 1]%nat;
      [apply perm_skip, perm_swap | apply perm_swap].
Defined.

(** ** Runs *)

Lemma then_ok {A B} (r : run A) (k : A -> run B) (a : A) :
  value r = OK a ->
  then_ r k = mkRun (value (k a)) (stdout r ++ stdout (k a))
                    (files r ++ files (k a)).
Proof. intros H. unfold then_. now rewrite H. Qed.

Lemma check_tensorflow_version_files (version : Z * Z) :
  files (check_tensorflow_version version) = [].
Proof.
  destruct version as [major minor]. unfold check_tensorflow_version.
  destruct ((major =? 2) && (minor >=? 17)); [reflexivity|].
  destruct ((major =? 2) && (minor =? 16)); [reflexivity|].
  destruct ((major =? 2) && (minor >=? 14)); reflexivity.
Qed.

Lemma check_tensorflow_version_value (version : Z * Z) :
  value (check_tensorflow_version version) = OK tt.
Proof.
  destruct version as [major minor]. unfold check_tensorflow_version.
  destruct ((major =? 2) && (minor >=? 17)); [reflexivity|].
  destruct ((major =? 2) && (minor =? 16)); [reflexivity|].
  destruct ((major =? 2) && (minor >=? 14)); reflexivity.
Qed.

Lemma then_value {A B} (r : run A) (k : A -> run B) :
  value (then_ r k)
  = match value r with OK a => value (k a) | Raise e => Raise e end.
Proof. unfold then_. now destruct (value r). Qed.

Lemma then_stdout {A B} (r : run A) (k : A -> run B) :
  stdout (then_ r k)
  = stdout r ++ match value r with OK a => stdout (k a) | Raise _ => [] end.
Proof. unfold then_. destruct (value r); simpl; now rewrite ?app_nil_r. Qed.

Lemma then_files {A B} (r : run A) (k : A -> run B) :
  files (then_ r k)
  = files r ++ match value r with OK a => files (k a) | Raise _ => [] end.
Proof. unfold then_. destruct (value r); simpl; now rewrite ?app_nil_r. Qed.

Lemma run_eq {A} (r : run A) v out fs :
  value r = v -> stdout r = out -> files r = fs -> r = mkRun v out fs.
Proof. destruct r. simpl. now intros -> -> ->. Qed.

(** Follow a run one step at a time, one projection at a time. *)
Ltac step_run :=
  repeat first
    [ rewrite then_value | rewrite then_stdout | rewrite then_files
    | rewrite check_tensorflow_version_value
    | rewrite check_tensorflow_version_files
    | progress cbn [value stdout files print lift ret app] ].

(** Steps that write no file compose to a run that writes no file. *)
Lemma then_files_nil {A B} (r : run A) (k : A -> run B) :
  files r = [] -> (forall a, files (k a) = []) -> files (then_ r k) = [].
Proof.
  intros Hr Hk. unfold then_. destruct (value r) as [a|e]; simpl.
  - now rewrite Hr, Hk.
  - exact Hr.
Qed.

Ltac files_nil :=
  repeat first
    [ reflexivity
    | apply check_tensorflow_version_files
    | apply then_files_nil; [| intros ?] ].

(** Before the loop nothing is written. *)
Lemma startup_files (env : environment) : files (startup env) = [].
Proof. unfold startup, load_gtzan_huggingface. files_nil. Qed.

Lemma startup_independent_of_stage (env : environment) stage :
  startup (with_stage env stage) = startup env.
Proof. reflexivity. Qed.

(** With no track assembled the run stops at the report line:
    [X.shape] is [(0,)] and [X.shape[1]] is out of range. *)
Lemma main_no_track (env : environment) dataset yamnet_model :
  value (startup env) = OK (dataset, yamnet_model) ->
  count_if (accepted yamnet_model) dataset = 0%nat ->
  let st := track_loop yamnet_model dataset loop_init in
  main env
  = mkRun (Raise IndexError)
          (stdout (startup env) ++ printed st
             ++ [TotalProcessed 0 (errors st)])
          [].
Proof.
  intros Hstart Hnone st.
  assert (Hx : embeddings_list st = []).
  { destruct (track_loop_assembled yamnet_model dataset loop_init)
      as [Hx _]. subst st. rewrite Hx. simpl.
    apply length_zero_iff_nil. now rewrite length_map, kept_length. }
  assert (Hc : count st = 0%nat).
  { destruct (track_loop_counters yamnet_model dataset loop_init)
      as [Hc _]. subst st. rewrite Hc. simpl. exact Hnone. }
  unfold main. rewrite (then_ok _ _ _ Hstart). fold st.
  rewrite Hx, Hc, startup_files. cbn -[startup].
  reflexivity.
Qed.

Lemma track_loop_prints_no_text ym ds : forall st,
  Forall (fun l => forall s, l <> Text s) (printed st) ->
  Forall (fun l => forall s, l <> Text s) (printed (track_loop ym ds st)).
Proof.
  induction ds as [|ex ds IH]; intros st Hst; [exact Hst|].
  rewrite track_loop_cons. apply IH.
  loop_cases ym st ex; cbn [printed]; apply Forall_app; split; auto.
  - destruct (S (count st) mod 100 =? 0)%nat; repeat constructor.
    discriminate.
  - destruct (S (errors st) <=? 5)%nat; repeat constructor. discriminate.
  - repeat constructor. discriminate.
Qed.

Lemma version_check_never_announces_training (version : Z * Z) :
  ~ In (Text "Building classifier model...")
       (stdout (check_tensorflow_version version)).
Proof.
  unfold check_tensorflow_version. destruct version as [major minor].
  destruct ((major =? 2) && (minor >=? 17));
    [| destruct ((major =? 2) && (minor =? 16));
       [| destruct ((major =? 2) && (minor >=? 14))]];
    cbn; intuition discriminate.
Qed.

Lemma startup_never_announces_training (env : environment) :
  ~ In (Text "Building classifier model...") (stdout (startup env)).
Proof.
  pose proof (version_check_never_announces_training (tf_version env))
    as Hv.
  unfold startup, load_gtzan_huggingface. step_run.
  destruct (import_datasets env) as [[]|e1]; step_run;
    [destruct (fetch_dataset env) as [d|e2]; step_run;
     [destruct (dict_getitem d "train") as [ds|e3]; step_run;
      [destruct (hub_load env) as [ym|e4]; step_run|]|]|];
    intros Hin; cbn [In] in Hin;
    repeat match type of Hin with
           | _ \/ _ => destruct Hin as [Hin | Hin]
           | In _ (_ ++ _) => apply in_app_iff in Hin; cbn [In] in Hin
           | In _ (stdout (check_tensorflow_version _)) => exact (Hv Hin)
           | False => contradiction
           | _ = _ => vm_compute in Hin; discriminate Hin
           end.
Qed.

(** C10: when no track is processed successfully (each one is skipped for
    its label or dropped on an exception) the run ends with an IndexError
    raised at the report line: the last line printed is the total, no file
    is written, and the training and export stage has no part in the run. *)
Theorem no_track_index_error (env : environment) dataset yamnet_model :
  value (startup env) = OK (dataset, yamnet_model) ->
  count_if (accepted yamnet_model) dataset = 0%nat ->
  let st := track_loop yamnet_model dataset loop_init in
  value (main env) = Raise IndexError
  /\ stdout (main env)
     = stdout (startup env) ++ printed st ++ [TotalProcessed 0 (errors st)]
  /\ ~ In (Text "Building classifier model...") (stdout (main env))
  /\ files (main env) = []
  /\ (forall stage, main (with_stage env stage) = main env).
Proof.
  intros Hstart Hnone st.
  pose proof (main_no_track env dataset yamnet_model Hstart Hnone) as Hm.
  fold st in Hm. cbv zeta in Hm.
  split; [rewrite Hm; reflexivity|].
  split; [rewrite Hm; reflexivity|].
  split.
  { rewrite Hm. cbn [stdout]. intros Hin.
    apply in_app_or in Hin as [Hin | Hin];
      [exact (startup_never_announces_training env Hin)|].
    apply in_app_or in Hin as [Hin | [Hin | []]]; [|discriminate].
    pose proof (track_loop_prints_no_text yamnet_model dataset loop_init
                  (Forall_nil _)) as Hno.
    rewrite Forall_forall in Hno. exact (Hno _ Hin _ eq_refl). }
  split; [rewrite Hm; reflexivity|].
  intros stage. rewrite Hm.
  pose proof (main_no_track (with_stage env stage) dataset yamnet_model)
    as Hm'.
  rewrite startup_independent_of_stage in Hm'.
  exact (Hm' Hstart Hnone).
Qed.

Lemma no_track_index_error_witness :
  let st := track_loop (frame_model 4)
              [mislabelled_track (PyInt 10); empty_track 3;
               mislabelled_track (PyOther "rock")] loop_init in
  value (main barren_env) = Raise IndexError
  /\ stdout (main barren_env)
     = stdout (startup barren_env) ++ printed st
       ++ [TotalProcessed 0 (errors st)]
  /\ ~ In (Text "Building classifier model...") (stdout (main barren_env))
  /\ files (main barren_env) = []
  /\ (forall stage, main (with_stage barren_env stage) = main barren_env).
Proof.
  apply (no_track_index_error barren_env); reflexivity.
Defined.

(** ** The entry point *)

Example simple_flag_first_argument :
  simple_flag ["train_genre_classifier.py"; "--simple"]%string = true
  /\ simple_flag ["train_genre_classifier.py"]%string = false
  /\ simple_flag ["train_genre_classifier.py"; "-v"; "--simple"]%string
     = false.
Proof. repeat split. Qed.

(** C9: a run with the [--simple] flag prints one line and then is the
    run without the flag: same result, same files, same output after that
    line.  The flag selects no other path. *)
Theorem simple_flag_only_prints (argv : list string) (env : environment) :
  value (script argv env) = value (main env)
  /\ files (script argv env) = files (main env)
  /\ stdout (script argv env)
     = (if simple_flag argv then [UsingSimpleModel] else [])
       ++ stdout (main env).
Proof.
  unfold script. destruct (simple_flag argv); repeat split.
Qed.

(** ** A complete run *)

(** With five tracks assembled the run reports five samples of four
    features, splits them four to one, and goes on to training and
    export. *)
Example main_reaches_export :
  value (main fertile_env) = OK tt
  /\ files (main fertile_env)
     = ["genre_classifier.tflite"; "genre_classifier.h5"]%string
  /\ In (TotalProcessed 5 1) (stdout (main fertile_env))
  /\ In (InvalidGenreIndex (PyInt 10)) (stdout (main fertile_env))
  /\ In (DatasetSummary 5 4) (stdout (main fertile_env))
  /\ In (TrainTest 4 1) (stdout (main fertile_env)).
Proof.
  vm_compute. repeat split; auto 30.
Qed.

(** * Further results *)

(** ** The resampler: exact length, vanishing tracks *)

Lemma Qfloor_eq (x y : Q) : (x == y)%Q -> Qfloor x = Qfloor y.
Proof.
  intros E. apply Z.le_antisymm; apply Qfloor_resp_le; rewrite E;
    apply Qle_refl.
Qed.

Lemma inject_Z_nonzero (z : Z) : z <> 0 -> ~ (inject_Z z == 0)%Q.
Proof.
  intros H C. apply H. unfold Qeq in C. simpl in C. lia.
Qed.

Lemma resample_length_div (audio : list Q) (R : Z) :
  audio <> [] -> 0 < R -> R <> 16000 ->
  exists out, resample audio R = OK out
              /\ len out = 16000 * len audio / R.
Proof.
  intros Hne Hpos Hr.
  destruct (resample_length audio R Hne Hpos Hr) as (out & E & Hlen).
  exists out. split; [exact E|]. rewrite Hlen, Zdiv_Qdiv.
  apply Qfloor_eq. rewrite inject_Z_mult. field.
  apply inject_Z_nonzero. lia.
Qed.



(** X2: a track too short to leave one sample after resampling
    (16000 * L < R, the empty track included) makes the body of the [try]
    raise ValueError, whatever the model: the empty track in [np.interp],
    the others in the maximum taken over the empty resampled array. *)
Theorem short_track_raises (yamnet_model : yamnet) (ex : example) :
  0 < sampling_rate ex -> sampling_rate ex <> 16000 ->
  16000 * len (audio_array ex) < sampling_rate ex ->
  process_track yamnet_model ex = Raise ValueError.
Proof.
  intros Hpos Hr Hshort. unfold process_track. cbv zeta.
  assert (Hl : len (map astype_float32 (audio_array ex))
               = len (audio_array ex))
    by (unfold len; now rewrite length_map).
  destruct (map astype_float32 (audio_array ex)) as [|x rest].
  - rewrite resample_empty_raises by lia. reflexivity.
  - destruct (resample_length_div (x :: rest) (sampling_rate ex))
      as (out & E & Hlen); [discriminate | lia | lia |].
    rewrite E. simpl bind.
    rewrite Z.div_small in Hlen by (unfold len in *; lia).
    destruct out; [reflexivity | discriminate].
Qed.

Lemma short_track_raises_witness :
  process_track (frame_model 4) (mkExample [1 # 2]%Q 22050 (PyInt 3))
  = Raise ValueError.
Proof.
  apply short_track_raises; simpl; reflexivity || lia.
Defined.

(** ** The resampler: interpolation *)

Lemma np_arange_nth (n i : nat) :
  (i < n)%nat -> nth i (np_arange n) 0%Q = nat_Q i.
Proof.
  intros H. unfold np_arange.
  rewrite (nth_indep _ 0%Q (nat_Q 0)) by now rewrite length_map, length_seq.
  change (nat_Q 0) with ((fun i => inject_Z (Z.of_nat i)) 0%nat).
  rewrite map_nth, seq_nth by exact H. reflexivity.
Qed.

Lemma nat_Q_le (i j : nat) : (i <= j)%nat -> (nat_Q i <= nat_Q j)%Q.
Proof. intros H. unfold nat_Q. rewrite <- Zle_Qle. lia. Qed.

Lemma nat_Q_S (i : nat) : (nat_Q (S i) == nat_Q i + 1)%Q.
Proof.
  unfold nat_Q. rewrite Nat2Z.inj_succ. unfold Z.succ.
  rewrite inject_Z_plus. reflexivity.
Qed.

Lemma search_index_cons (x0 x1 : Q) (rest : list Q) (x : Q) :
  search_index (x0 :: x1 :: rest) x
  = if Qle_bool x1 x then S (search_index (x1 :: rest) x) else 0%nat.
Proof. reflexivity. Qed.

(** The search returns the interval of the sample points that holds [x]. *)
Lemma search_index_seq (n : nat) : forall (s : nat) (x : Q),
  (nat_Q s <= x)%Q ->
  let j := search_index (map nat_Q (seq s (S n))) x in
  (j <= n)%nat
  /\ (nat_Q (s + j) <= x)%Q
  /\ ((j < n)%nat -> (x < nat_Q (s + S j))%Q).
Proof.
  induction n as [|n IH]; intros s x Hs.
  - simpl. rewrite Nat.add_0_r. repeat split; auto. lia.
  - cbn [seq map]. rewrite search_index_cons.
    change (nat_Q (S s) :: map nat_Q (seq (S (S s)) n))
      with (map nat_Q (seq (S s) (S n))).
    destruct (Qle_bool (nat_Q (S s)) x) eqn:E.
    + apply Qle_bool_iff in E. destruct (IH (S s) x E) as (H1 & H2 & H3).
      cbv zeta. repeat split.
      * lia.
      * now rewrite Nat.add_succ_r.
      * intros H. rewrite Nat.add_succ_r. apply H3. lia.
    + cbv zeta. rewrite Nat.add_0_r. repeat split; [lia | exact Hs |].
      intros _. rewrite Nat.add_1_r. apply Qnot_le_lt. intros C.
      apply Qle_bool_iff in C. congruence.
Qed.

Lemma search_index_arange (L : nat) (x : Q) :
  (0 <= x)%Q ->
  let j := search_index (np_arange (S L)) x in
  (j <= L)%nat /\ (nat_Q j <= x)%Q /\ ((j < L)%nat -> (x < nat_Q (S j))%Q).
Proof.
  intros Hx. exact (search_index_seq L 0 x Hx).
Qed.

Lemma np_arange_hd (L : nat) : hd 0%Q (np_arange (S L)) = nat_Q 0.
Proof. reflexivity. Qed.

Lemma np_arange_last (L : nat) : last (np_arange (S L)) 0%Q = nat_Q L.
Proof.
  unfold np_arange. rewrite seq_S, map_app. simpl map.
  now rewrite last_last.
Qed.

Lemma Qltb_false (a b : Q) : Qltb a b = false <-> (b <= a)%Q.
Proof.
  unfold Qltb. rewrite negb_false_iff. apply Qle_bool_iff.
Qed.

Lemma Forall_nth_in {A} (P : A -> Prop) (l : list A) (d : A) (i : nat) :
  Forall P l -> (i < length l)%nat -> P (nth i l d).
Proof.
  intros H Hi. rewrite Forall_forall in H. apply H. now apply nth_In.
Qed.

(** A sample of [np.interp] lies between the bounds of the values it
    interpolates. *)
Lemma interp1_bounds (fp : list Q) (lo hi x : Q) :
  fp <> [] ->
  Forall (fun v => lo <= v <= hi)%Q fp ->
  (lo <= interp1 (np_arange (length fp)) fp x <= hi)%Q.
Proof.
  intros Hne Hall. destruct fp as [|v0 rest]; [congruence|].
  set (fp := v0 :: rest) in *. set (L := length rest).
  change (length fp) with (S L).
  assert (Hin : forall i, (i <= L)%nat -> (lo <= nth i fp 0 <= hi)%Q).
  { intros i Hi. apply Forall_nth_in; [exact Hall | simpl; lia]. }
  unfold interp1. rewrite np_arange_hd, np_arange_last.
  destruct (Qltb x (nat_Q 0)) eqn:E1.
  { exact (Hin 0%nat (Nat.le_0_l L)). }
  destruct (Qltb (nat_Q L) x) eqn:E2.
  { replace (last fp 0%Q) with (nth L fp 0%Q); [now apply Hin|].
    subst fp L. clear. revert v0.
    induction rest as [|v1 rest IH]; intros v0; [reflexivity|].
    simpl length. change (nth (S (length rest)) (v0 :: v1 :: rest) 0%Q)
      with (nth (length rest) (v1 :: rest) 0%Q).
    rewrite IH. reflexivity. }
  apply Qltb_false in E1, E2.
  destruct (search_index_arange L x E1) as (Hj & Hlo & Hhi).
  set (j := search_index (np_arange (S L)) x) in *.
  cbv zeta. rewrite np_arange_length.
  destruct (Nat.eqb_spec (S j) (S L)) as [_|Hn]; [now apply Hin|].
  destruct (Qeq_bool (nth j (np_arange (S L)) 0%Q) x); [now apply Hin|].
  assert (Hj' : (j < L)%nat) by lia.
  rewrite !np_arange_nth by lia.
  specialize (Hhi Hj').
  destruct (Hin j Hj) as [Ha1 Ha2].
  destruct (Hin (S j) Hj') as [Hb1 Hb2].
  set (a := nth j fp 0%Q) in *. set (b := nth (S j) fp 0%Q) in *.
  pose proof (nat_Q_S j) as HS.
  set (t := (x - nat_Q j)%Q).
  assert (Ht0 : (0 <= t)%Q) by (unfold t; lra).
  assert (Ht1 : (t <= 1)%Q) by (unfold t; lra).
  assert (Hval : ((b - a) / (nat_Q (S j) - nat_Q j) * t + a
                  == (1 - t) * a + t * b)%Q).
  { rewrite HS. field. lra. }
  rewrite Hval.
  pose proof (Qmult_le_0_compat _ _ Ht0 (proj1 (Qle_minus_iff lo b) Hb1)).
  pose proof (Qmult_le_0_compat _ _ Ht0 (proj1 (Qle_minus_iff b hi) Hb2)).
  assert (Ht1' : (0 <= 1 - t)%Q) by lra.
  pose proof (Qmult_le_0_compat _ _ Ht1' (proj1 (Qle_minus_iff lo a) Ha1)).
  pose proof (Qmult_le_0_compat _ _ Ht1' (proj1 (Qle_minus_iff a hi) Ha2)).
  split; lra.
Qed.

(** The resampled track, spelled out: the interpolation of the track at
    the points of [np.linspace]. *)
Lemma resample_unfold (audio : list Q) (R : Z) :
  audio <> [] -> 0 < R -> R <> 16000 ->
  let n := Z.to_nat (16000 * len audio / R) in
  let step := ((inject_Z (len audio - 1) - 0)
               / inject_Z (16000 * len audio / R - 1))%Q in
  resample audio R
  = OK (map (interp1 (np_arange (length audio)) audio)
            (map (fun i => (0 + nat_Q i * step)%Q) (seq 0 n))).
Proof.
  intros Hne Hpos Hr n step. unfold resample.
  destruct (Z.eqb_spec R 16000) as [|_]; [contradiction|]. simpl negb.
  unfold py_truediv. destruct (Z.eqb_spec R 0) as [|_]; [lia|]. simpl bind.
  set (x := (inject_Z (len audio) * (inject_Z 16000 / inject_Z R))%Q).
  assert (Hx : (0 <= x)%Q).
  { unfold x. apply Qmult_le_0_compat.
    - change 0%Q with (inject_Z 0). rewrite <- Zle_Qle. unfold len. lia.
    - apply Qle_shift_div_l.
      + change 0%Q with (inject_Z 0). now rewrite <- Zlt_Qlt.
      + rewrite Qmult_0_l. discriminate. }
  assert (Hf : py_int x = 16000 * len audio / R).
  { rewrite (py_int_nonneg x Hx), Zdiv_Qdiv. apply Qfloor_eq. unfold x.
    rewrite inject_Z_mult. field. apply inject_Z_nonzero. lia. }
  rewrite Hf. unfold np_linspace.
  destruct (Z.ltb_spec (16000 * len audio / R) 0) as [Hneg|_].
  { pose proof (Z.div_pos (16000 * len audio) R). unfold len in *. lia. }
  simpl bind. unfold np_interp.
  destruct audio as [|v rest]; [congruence|].
  change (np_arange (length (v :: rest)))
    with (nat_Q 0 :: map nat_Q (seq 1 (length rest))).
  cbn [length]. rewrite length_map, length_seq, Nat.eqb_refl.
  reflexivity.
Qed.

Lemma Forall_map_intro {A B} (f : A -> B) (P : B -> Prop) (l : list A) :
  (forall a, P (f a)) -> Forall P (map f l).
Proof.
  intros H. induction l; simpl; constructor; auto.
Qed.

Lemma resample_bounds (audio : list Q) (R : Z) (lo hi : Q) :
  audio <> [] -> 0 < R ->
  Forall (fun v => lo <= v <= hi)%Q audio ->
  exists out, resample audio R = OK out
              /\ Forall (fun v => lo <= v <= hi)%Q out.
Proof.
  intros Hne Hpos Hall.
  destruct (Z.eq_dec R 16000) as [-> | Hr].
  - exists audio. split; [reflexivity | exact Hall].
  - eexists. split; [apply (resample_unfold audio R Hne Hpos Hr)|].
    apply Forall_map_intro. intros x. now apply interp1_bounds.
Qed.

(** X3: linear interpolation does not overshoot: if every sample of a
    non-empty track lies in [[lo, hi]], so does every sample of the
    resampled track, at every positive rate. *)
Theorem resample_within_bounds (audio : list Q) (R : Z) (lo hi : Q) :
  audio <> [] -> 0 < R ->
  Forall (fun v => lo <= v <= hi)%Q audio ->
  exists out, resample audio R = OK out
              /\ Forall (fun v => lo <= v <= hi)%Q out.
Proof. exact (resample_bounds audio R lo hi). Qed.

Lemma resample_within_bounds_witness :
  exists out, resample [1 # 2; 1 # 4; 0 # 1; -1 # 4]%Q 8000 = OK out
              /\ Forall (fun v => -1 # 4 <= v <= 1 # 2)%Q out.
Proof.
  apply resample_within_bounds; [discriminate | lia |].
  repeat constructor; discriminate.
Defined.

(** At a sample point the interpolation returns the sample itself. *)
Lemma interp1_at_index (fp : list Q) (k : nat) (x : Q) :
  (k < length fp)%nat -> (x == nat_Q k)%Q ->
  interp1 (np_arange (length fp)) fp x = nth k fp 0%Q.
Proof.
  intros Hk Hx. destruct fp as [|v0 rest]; [simpl in Hk; lia|].
  set (fp := v0 :: rest) in *. set (L := length rest).
  change (length fp) with (S L) in *.
  unfold interp1. rewrite np_arange_hd, np_arange_last.
  assert (E1 : Qltb x (nat_Q 0) = false).
  { apply Qltb_false. rewrite Hx. apply nat_Q_le. lia. }
  assert (E2 : Qltb (nat_Q L) x = false).
  { apply Qltb_false. rewrite Hx. apply nat_Q_le. lia. }
  rewrite E1, E2. apply Qltb_false in E1.
  destruct (search_index_arange L x E1) as (Hj & Hlo & Hhi).
  set (j := search_index (np_arange (S L)) x) in *. cbv zeta.
  assert (Hjk : j = k).
  { assert (j <= k)%nat.
    { rewrite Hx in Hlo. unfold nat_Q in Hlo. rewrite <- Zle_Qle in Hlo.
      lia. }
    destruct (Nat.eq_dec j k) as [|Hne]; [assumption|].
    assert (Hlt : (j < L)%nat) by lia. specialize (Hhi Hlt).
    rewrite Hx in Hhi. unfold nat_Q in Hhi. rewrite <- Zlt_Qlt in Hhi.
    lia. }
  rewrite Hjk, np_arange_length.
  destruct (S k =? S L)%nat; [reflexivity|].
  rewrite np_arange_nth by lia.
  assert (E : Qeq_bool (nat_Q k) x = true)
    by (apply Qeq_bool_iff; now symmetry).
  now rewrite E.
Qed.

Lemma last_nth {A} (l : list A) (d : A) :
  last l d = nth (length l - 1) l d.
Proof.
  induction l as [|a l IH]; [reflexivity|].
  destruct l as [|b l]; [reflexivity|].
  change (last (a :: b :: l) d) with (last (b :: l) d). rewrite IH.
  cbn [length Nat.sub]. rewrite Nat.sub_0_r. reflexivity.
Qed.

(** X4: both ends of [np.linspace(0, len(audio) - 1, new_len)] are sample
    points, so the resampled track starts with the first sample of the
    track and, when it has two samples or more, ends with the last one. *)
Theorem resample_keeps_endpoints (audio : list Q) (R : Z) :
  audio <> [] -> 0 < R -> R <> 16000 ->
  exists out, resample audio R = OK out
    /\ (out <> [] -> hd 0%Q out = hd 0%Q audio)
    /\ ((2 <= length out)%nat -> last out 0%Q = last audio 0%Q).
Proof.
  intros Hne Hpos Hr.
  eexists. split; [apply (resample_unfold audio R Hne Hpos Hr)|].
  set (num := 16000 * len audio / R).
  set (step := ((inject_Z (len audio - 1) - 0) / inject_Z (num - 1))%Q).
  assert (HL : (0 < length audio)%nat)
    by (destruct audio; [congruence | simpl; lia]).
  split.
  - destruct (Z.to_nat num) as [|m]; [intros C; now contradiction C|].
    intros _. cbn [seq map hd].
    rewrite (interp1_at_index audio 0); [now destruct audio | exact HL |].
    unfold nat_Q. simpl. ring.
  - rewrite !length_map, length_seq. intros H2.
    destruct (Z.to_nat num) as [|m] eqn:Em; [lia|].
    rewrite seq_S, !map_app. cbn [map]. rewrite last_last, last_nth.
    apply interp1_at_index; [lia|].
    assert (Hm : Z.of_nat m = num - 1) by lia.
    unfold step. rewrite <- Hm. unfold nat_Q, len.
    replace (Z.of_nat (length audio) - 1)
      with (Z.of_nat (length audio - 1)) by lia.
    simpl Nat.add. field. apply inject_Z_nonzero. lia.
Qed.

Lemma resample_keeps_endpoints_witness :
  exists out, resample [1 # 2; 1 # 4; 0 # 1; -1 # 4]%Q 8000 = OK out
    /\ (out <> [] -> hd 0%Q out = (1 # 2)%Q)
    /\ ((2 <= length out)%nat -> last out 0%Q = (-1 # 4)%Q).
Proof.
  apply (resample_keeps_endpoints [1 # 2; 1 # 4; 0 # 1; -1 # 4]%Q 8000);
    [discriminate | lia | lia].
Defined.

(** ** Conversion to float32: values and bounds *)

Example astype_float32_values :
  Qred (astype_float32 (1 # 2)) = (1 # 2)%Q
  /\ Qred (astype_float32 (1 # 10)) = (13421773 # 134217728)%Q
  /\ Qred (astype_float32 (16777217 # 16777216)) = 1%Q
  /\ Qred (astype_float32 (16777219 # 16777216)) = (4194305 # 4194304)%Q
  /\ Qred (astype_float32 (-5 # 2)) = (-5 # 2)%Q
  /\ Qred (astype_float32 (3 # 2 ^ 150)) = (1 # 2 ^ 148)%Q.
Proof. vm_compute. repeat split. Qed.

(** Rounding to the nearest integer does not pass an integer. *)
Lemma round_half_even_le (y : Q) (N : Z) :
  (y <= inject_Z N)%Q -> round_half_even y <= N.
Proof.
  intros H. unfold round_half_even.
  pose proof (Qfloor_le y) as Hf. pose proof (Qlt_floor y) as Hc.
  assert (Hle : Qfloor y <= N).
  { rewrite Zle_Qle. eapply Qle_trans; eauto. }
  destruct (Qcompare_spec (y - inject_Z (Qfloor y)) (1 # 2)) as [E | E | E];
    try exact Hle;
    assert (Hlt : Qfloor y < N)
      by (rewrite Zlt_Qlt; apply Qlt_le_trans with y; [lra | exact H]);
    try destruct (Z.even (Qfloor y)); lia.
Qed.

Lemma round_half_even_ge (y : Q) (N : Z) :
  (inject_Z N <= y)%Q -> N <= round_half_even y.
Proof.
  intros H. unfold round_half_even.
  pose proof (Qlt_floor y) as Hc.
  assert (Hle : N <= Qfloor y).
  { apply Z.lt_succ_r. rewrite Zlt_Qlt.
    eapply Qle_lt_trans; [exact H | exact Hc]. }
  destruct (Qcompare_spec (y - inject_Z (Qfloor y)) (1 # 2));
    try destruct (Z.even (Qfloor y)); lia.
Qed.

(** The exponent found for a positive rational not above [2^k]. *)
Lemma ilog2_le (q : Q) (k : Z) :
  0 <= k -> (0 < q)%Q -> (q <= inject_Z (2 ^ k))%Q -> ilog2 q <= k.
Proof.
  intros Hk Hpos Hle. destruct q as [n d].
  assert (Hn : 0 < n) by (unfold Qlt in Hpos; simpl in Hpos; lia).
  assert (Hnd : n <= 2 ^ k * Zpos d)
    by (unfold Qle in Hle; simpl in Hle; lia).
  assert (Hd : Zpos d < 2 ^ (Z.log2 (Zpos d) + 1)).
  { pose proof (Z.log2_spec (Zpos d) eq_refl) as [_ H].
    now rewrite <- Z.add_1_r in H. }
  pose proof (Z.log2_nonneg (Zpos d)) as Hb.
  assert (Hlog : Z.log2 n < k + (Z.log2 (Zpos d) + 1)).
  { apply Z.log2_lt_pow2; [exact Hn|]. rewrite Z.pow_add_r by lia.
    pose proof (Z.pow_pos_nonneg 2 k). nia. }
  unfold ilog2. simpl Qnum. simpl Qden.
  destruct (Qle_bool _ _); lia.
Qed.

Lemma pow2_pos (e : Z) : (0 < pow2 e)%Q.
Proof. apply Qpower_0_lt. reflexivity. Qed.

Lemma pow2_nonneg_exponent (n : Z) :
  0 <= n -> (pow2 n == inject_Z (2 ^ n))%Q.
Proof. intros H. unfold pow2. now rewrite Zpower_Qpower. Qed.

(** The conversion does not pass a power of two: a sample of absolute
    value at most [2^k] is converted to one of absolute value at most
    [2^k]. *)
Lemma astype_float32_bound (k : Z) (x : Q) :
  0 <= k ->
  (Qabs x <= inject_Z (2 ^ k))%Q ->
  (Qabs (astype_float32 x) <= inject_Z (2 ^ k))%Q.
Proof.
  intros Hk Hx. unfold astype_float32, round_binary.
  destruct (Qeq_bool x 0) eqn:E0.
  { change (Qabs 0) with 0%Q. change 0%Q with (inject_Z 0).
    rewrite <- Zle_Qle. apply Z.pow_nonneg. lia. }
  assert (Hx0 : (0 < Qabs x)%Q).
  { apply Qnot_le_lt. intros C. apply Qabs_Qle_condition in C.
    apply Qeq_bool_neq in E0. apply E0. lra. }
  pose proof (ilog2_le (Qabs x) k Hk Hx0 Hx) as He.
  set (e := Z.max (ilog2 (Qabs x)) (-126)) in *.
  assert (HE : e <= k) by (unfold e; lia).
  set (s := k - (e - (24 - 1))).
  assert (Hs : 0 <= s) by (unfold s; lia).
  pose proof (pow2_pos (e - (24 - 1))) as Hulp.
  set (ulp := pow2 (e - (24 - 1))) in *.
  assert (HB : (inject_Z (2 ^ k) == inject_Z (2 ^ s) * ulp)%Q).
  { rewrite <- !pow2_nonneg_exponent by assumption. unfold ulp, pow2.
    rewrite <- Qpower_plus by discriminate. unfold s.
    replace (k - (e - (24 - 1)) + (e - (24 - 1))) with k by lia.
    reflexivity. }
  apply Qabs_Qle_condition in Hx. destruct Hx as [Hx1 Hx2].
  assert (Hy2 : (x / ulp <= inject_Z (2 ^ s))%Q).
  { apply Qle_shift_div_r; [exact Hulp|]. now rewrite <- HB. }
  assert (Hy1 : (inject_Z (- 2 ^ s) <= x / ulp)%Q).
  { apply Qle_shift_div_l; [exact Hulp|].
    rewrite inject_Z_opp.
    setoid_replace (- inject_Z (2 ^ s) * ulp)%Q
      with (- (inject_Z (2 ^ s) * ulp))%Q by ring.
    now rewrite <- HB. }
  pose proof (round_half_even_le _ _ Hy2) as Hm2.
  pose proof (round_half_even_ge _ _ Hy1) as Hm1.
  set (m := round_half_even (x / ulp)) in *.
  apply Qabs_Qle_condition. rewrite HB. split.
  - setoid_replace (- (inject_Z (2 ^ s) * ulp))%Q
      with (inject_Z (- 2 ^ s) * ulp)%Q by (rewrite inject_Z_opp; ring).
    apply Qmult_le_compat_r; [now rewrite <- Zle_Qle | now apply Qlt_le_weak].
  - apply Qmult_le_compat_r; [now rewrite <- Zle_Qle | now apply Qlt_le_weak].
Qed.

Lemma astype_float32_bound_all (k : Z) (l : list Q) :
  0 <= k ->
  Forall (fun v => Qabs v <= inject_Z (2 ^ k))%Q l ->
  Forall (fun v => Qabs v <= inject_Z (2 ^ k))%Q (map astype_float32 l).
Proof.
  intros Hk H. induction H; simpl; constructor; auto.
  now apply astype_float32_bound.
Qed.

(** ** The extractor: what reaches the model *)

Lemma not_integer_scaled_bound (audio : list Q) :
  ~ integer_scaled audio <-> Forall (fun v => Qabs v <= 1)%Q audio.
Proof.
  rewrite Forall_forall. unfold integer_scaled. split.
  - intros H v Hv. apply Qnot_lt_le. intros C. apply H. now exists v.
  - intros H (v & Hv & C). apply (Qlt_not_le _ _ C). now apply H.
Qed.

Lemma scale_int16_bound (audio : list Q) :
  Forall (fun v => Qabs v <= 32768 # 1)%Q audio ->
  Forall (fun v => Qabs v <= 1)%Q (scale_int16 audio).
Proof.
  intros H. unfold scale_int16. induction H as [|v l Hv _ IH]; simpl;
    constructor; [|exact IH].
  apply (astype_float32_bound 0); [lia|].
  apply Qabs_Qle_condition in Hv. apply Qabs_Qle_condition.
  destruct Hv as [H1 H2]. change (inject_Z (2 ^ 0)) with 1%Q. split.
  - apply Qle_shift_div_l; [reflexivity | lra].
  - apply Qle_shift_div_r; [reflexivity | lra].
Qed.

(** X5: a non-empty waveform whose samples are within the 16-bit range
    ([|v| <= 32768]) reaches the model with every sample in [[-1, 1]],
    whichever branch of the normalisation it takes. *)
Theorem int16_waveform_normalised (audio : list Q) :
  audio <> [] ->
  Forall (fun v => Qabs v <= 32768 # 1)%Q audio ->
  exists waveform,
    (forall yamnet_model,
       extract_embeddings audio yamnet_model
       = apply_yamnet yamnet_model waveform)
    /\ Forall (fun v => Qabs v <= 1)%Q waveform.
Proof.
  intros Hne Hall.
  set (converted := map astype_float32 audio).
  assert (Hne' : converted <> []).
  { subst converted. destruct audio; [congruence | discriminate]. }
  assert (Hall' : Forall (fun v => Qabs v <= 32768 # 1)%Q converted)
    by (apply (astype_float32_bound_all 15); [lia | exact Hall]).
  destruct (np_abs_max_nonempty converted Hne') as [m Hm].
  pose proof (np_abs_max_exceeds converted m Hm) as Hiff.
  unfold extract_embeddings. fold converted. cbv zeta.
  rewrite Hm. simpl bind.
  destruct (Qltb 1 m).
  - exists (scale_int16 converted). split; [reflexivity|].
    now apply scale_int16_bound.
  - exists converted. split; [reflexivity|].
    apply not_integer_scaled_bound. intros C. apply Hiff in C. discriminate.
Qed.

Lemma int16_waveform_normalised_witness :
  exists waveform,
    (forall yamnet_model,
       extract_embeddings [16384 # 1; -32768 # 1; 1 # 2]%Q yamnet_model
       = apply_yamnet yamnet_model waveform)
    /\ Forall (fun v => Qabs v <= 1)%Q waveform.
Proof.
  apply int16_waveform_normalised; [discriminate|].
  repeat constructor; discriminate.
Defined.





(** ** The loop: progress lines *)

Lemma progress_step (c : nat) :
  if (S c mod 100 =? 0)%nat
  then (S c / 100 = S (c / 100) /\ S c = 100 * S (c / 100))%nat
  else (S c / 100 = c / 100)%nat.
Proof.
  pose proof (Nat.div_mod_eq (S c) 100) as H1.
  pose proof (Nat.div_mod_eq c 100) as H2.
  pose proof (Nat.mod_upper_bound (S c) 100) as B1.
  pose proof (Nat.mod_upper_bound c 100) as B2.
  destruct (Nat.eqb_spec (S c mod 100) 0); lia.
Qed.

Lemma track_loop_progress_lines ym ds : forall st,
  filter is_progress_line (printed st)
  = map (fun k => ProcessedTracks (100 * k)) (seq 1 (count st / 100)) ->
  filter is_progress_line (printed (track_loop ym ds st))
  = map (fun k => ProcessedTracks (100 * k))
        (seq 1 (count (track_loop ym ds st) / 100)).
Proof.
  induction ds as [|ex ds IH]; intros st Hst; [exact Hst|].
  rewrite track_loop_cons. apply IH.
  loop_cases ym st ex; cbn [printed count]; rewrite filter_app, Hst.
  - pose proof (progress_step (count st)) as Hp.
    destruct (S (count st) mod 100 =? 0)%nat.
    + destruct Hp as [-> Hc]. rewrite seq_S, map_app. cbn [filter map].
      cbn [is_progress_line]. do 3 f_equal. exact Hc.
    + rewrite Hp. cbn [filter]. apply app_nil_r.
  - destruct (S (errors st) <=? 5)%nat; cbn; apply app_nil_r.
  - cbn. apply app_nil_r.
Qed.

(** X7: the loop prints a progress line after every hundredth track it
    keeps and at no other time: the progress lines of a run are those of
    100, 200, ... up to the number of tracks kept. *)
Theorem progress_every_hundred (yamnet_model : yamnet)
  (dataset : list example) :
  let st := track_loop yamnet_model dataset loop_init in
  filter is_progress_line (printed st)
  = map (fun k => ProcessedTracks (100 * k))
        (seq 1 (count_if (accepted yamnet_model) dataset / 100))
  /\ count st = count_if (accepted yamnet_model) dataset
  /\ count st = length (embeddings_list st)
  /\ count st = length (labels_list st).
Proof.
  intros st. subst st.
  pose proof (track_loop_progress_lines yamnet_model dataset loop_init
                eq_refl) as Hp.
  destruct (track_loop_counters yamnet_model dataset loop_init) as [Hc _].
  destruct (track_loop_assembled yamnet_model dataset loop_init) as [Hx Hy].
  simpl in Hc, Hx, Hy. rewrite Hc in Hp.
  repeat split; try assumption.
  - now rewrite Hx, length_map, kept_length.
  - now rewrite Hy, length_map, kept_length.
Qed.

Example progress_at_200 :
  filter is_progress_line
    (printed (track_loop (frame_model 1) (repeat (quiet_track 2) 250)
                         loop_init))
  = [ProcessedTracks 100; ProcessedTracks 200].
Proof. vm_compute. reflexivity. Qed.

(** ** A run that reaches training *)

Lemma shuffle_split_ok {A B} (X : list A) (y : list B) (indices : list nat) :
  length X = length y ->
  Permutation indices (seq 0 (length X)) ->
  exists parts, shuffle_split X y indices = OK parts
    /\ length (X_train parts) = spec_train_size (length X)
    /\ length (X_test parts) = (length X - spec_train_size (length X))%nat
    /\ length (y_test parts) = (length X - spec_train_size (length X))%nat
    /\ Permutation (y_train parts ++ y_test parts) y.
Proof.
  intros Hlen P.
  destruct (shuffle_ok X y indices Hlen P)
    as (X' & y' & E & _ & _ & PX & Py & _).
  assert (HX : length X' = length X) by now apply Permutation_length.
  assert (Hy : length y' = length y) by now apply Permutation_length.
  assert (Hlen' : length X' = length y') by congruence.
  destruct (train_test_split_spec X' y' Hlen')
    as (S1 & S2 & _ & S4 & _ & S6 & _).
  exists (train_test_split X' y'). unfold shuffle_split. rewrite E.
  cbn [bind fst snd]. rewrite HX in S1, S2, S4. rewrite S6.
  repeat split; assumption.
Qed.

Lemma process_track_width ym w ex embedding :
  embeds_width w ym -> process_track ym ex = OK embedding ->
  length embedding = w.
Proof.
  intros Hw. unfold process_track, extract_embeddings. cbv zeta.
  destruct (resample _ (sampling_rate ex)) as [audio|];
    [|discriminate]. simpl bind.
  destruct (np_abs_max _) as [m|]; [|discriminate]. simpl bind.
  destruct (ym _) as [[[s e] p]|] eqn:E; [|discriminate]. simpl.
  intros [= <-]. rewrite reduce_mean_axis0_length. eapply Hw; eauto.
Qed.

Lemma kept_width ym w ds :
  embeds_width w ym ->
  Forall (fun e => length e = w) (map fst (flat_map (kept ym) ds)).
Proof.
  intros Hw. induction ds as [|ex ds IH]; [constructor|].
  cbn [flat_map]. rewrite map_app. apply Forall_app. split; [|exact IH].
  unfold kept. destruct (label_in 10 ex); [|constructor].
  destruct (process_track ym ex) as [e|] eqn:E; constructor; [|constructor].
  eapply process_track_width; eauto.
Qed.

Lemma np_array_shape_uniform (w : nat) (X : list (list Q)) :
  X <> [] -> Forall (fun e => length e = w) X ->
  np_array_shape X = OK [length X; w].
Proof.
  intros Hne Hall. destruct X as [|v rest]; [congruence|].
  inversion Hall as [|? ? Hv Hrest]; subst. unfold np_array_shape.
  replace (forallb _ rest) with true; [reflexivity|].
  symmetry. apply forallb_forall. intros u Hu. apply Nat.eqb_eq.
  rewrite Forall_forall in Hrest. now apply Hrest.
Qed.

(** X8: when the data and the model load, at least one track is kept, the
    model returns embeddings of one width [w] and the permutation drawn is
    a permutation, the run reports N samples of [w] features (the N of the
    total line), splits them floor(0.8 N) to the rest, announces training
    and hands the shuffled partitions to the training and export stage,
    whose result, output and files end the run. *)
Theorem main_reaches_training (env : environment) dataset yamnet_model w :
  value (startup env) = OK (dataset, yamnet_model) ->
  embeds_width w yamnet_model ->
  let st := track_loop yamnet_model dataset loop_init in
  let N := count_if (accepted yamnet_model) dataset in
  (1 <= N)%nat ->
  Permutation (np_random_permutation env N) (seq 0 N) ->
  exists parts,
    shuffle_split (embeddings_list st) (labels_list st)
                  (np_random_permutation env N) = OK parts
    /\ main env
       = mkRun (value (train_export_verify env parts))
               (stdout (startup env) ++ printed st
                ++ [TotalProcessed N (errors st);
                    DatasetSummary N w;
                    TrainTest (spec_train_size N) (N - spec_train_size N);
                    Text "Building classifier model..."]
                ++ stdout (train_export_verify env parts))
               (files (train_export_verify env parts)).
Proof.
  intros Hstart Hw st N HN Hperm.
  destruct (track_loop_assembled yamnet_model dataset loop_init) as [Hx Hy].
  destruct (track_loop_counters yamnet_model dataset loop_init) as [Hc _].
  fold st in Hx, Hy, Hc. simpl in Hx, Hy, Hc. fold N in Hc.
  assert (HlenX : length (embeddings_list st) = N)
    by (rewrite Hx, length_map; apply kept_length).
  assert (Hleny : length (labels_list st) = N)
    by (rewrite Hy, length_map; apply kept_length).
  assert (Hshape : np_array_shape (embeddings_list st) = OK [N; w]).
  { rewrite <- HlenX. apply np_array_shape_uniform.
    - intros C. rewrite C in HlenX. simpl in HlenX. lia.
    - rewrite Hx. now apply kept_width. }
  assert (Hlen : length (embeddings_list st) = length (labels_list st))
    by congruence.
  rewrite <- HlenX in Hperm.
  destruct (shuffle_split_ok _ _ _ Hlen Hperm)
    as (parts & Hsplit & S1 & S2 & _).
  rewrite HlenX in Hperm, Hsplit, S1, S2.
  exists parts. split; [exact Hsplit|].
  unfold shuffle_split in Hsplit.
  destruct (shuffle (embeddings_list st) (labels_list st)
              (np_random_permutation env N)) as [Xy|] eqn:Eshuf;
    [|discriminate].
  simpl in Hsplit. injection Hsplit as Hparts.
  unfold main. rewrite (then_ok _ _ _ Hstart). fold st.
  rewrite Hshape, HlenX, Hc, Eshuf, startup_files.
  cbn -[startup train_test_split spec_train_size].
  rewrite Hparts, S1, S2.
  destruct (train_export_verify env parts) as [v out fs].
  cbn -[startup spec_train_size]. reflexivity.
Qed.

Lemma frame_model_width (w : nat) : embeds_width w (frame_model w).
Proof. intros a s e p [= <- <- <-]. reflexivity. Qed.

Lemma main_reaches_training_witness :
  exists parts,
    shuffle_split
      (embeddings_list (track_loop (frame_model 4) fertile_tracks loop_init))
      (labels_list (track_loop (frame_model 4) fertile_tracks loop_init))
      (np_random_permutation fertile_env 5) = OK parts
    /\ main fertile_env
       = mkRun (value (train_export_verify fertile_env parts))
               (stdout (startup fertile_env)
                ++ printed
                     (track_loop (frame_model 4) fertile_tracks loop_init)
                ++ [TotalProcessed 5 1; DatasetSummary 5 4; TrainTest 4 1;
                    Text "Building classifier model..."]
                ++ stdout (train_export_verify fertile_env parts))
               (files (train_export_verify fertile_env parts)).
Proof.
  refine (main_reaches_training fertile_env fertile_tracks (frame_model 4) 4
            eq_refl (frame_model_width 4) _ _).
  - vm_compute. lia.
  - apply Permutation_sym, Permutation_rev.
Defined.

(** ** The split: sizes at the edges *)

Lemma spec_train_size_lt (N : nat) :
  (1 <= N -> spec_train_size N < N)%nat.
Proof.
  intros H. rewrite spec_train_size_div.
  apply Nat.Div0.div_lt_upper_bound. lia.
Qed.

(** X9: the test partition has ceil(N / 5) examples, so it holds at least
    one example as soon as one track is assembled; the train partition is
    empty exactly when at most one track is assembled. *)
Theorem split_edge_sizes {A B} (X : list A) (y : list B) :
  length X = length y ->
  let parts := train_test_split X y in
  let N := length X in
  length (X_test parts) = ((N + 4) / 5)%nat
  /\ length (y_test parts) = ((N + 4) / 5)%nat
  /\ ((1 <= N)%nat -> (1 <= length (X_test parts))%nat)
  /\ (length (X_train parts) = 0%nat <-> (N <= 1)%nat).
Proof.
  intros Hlen parts N.
  destruct (train_test_split_spec X y Hlen) as (S1 & S2 & _ & S4 & _).
  fold parts in S1, S2, S4. fold N in S1, S2, S4.
  rewrite S1, S2, S4, spec_train_size_div.
  pose proof (Nat.div_mod_eq (4 * N) 5) as D1.
  pose proof (Nat.mod_upper_bound (4 * N) 5) as B1.
  pose proof (Nat.div_mod_eq (N + 4) 5) as D2.
  pose proof (Nat.mod_upper_bound (N + 4) 5) as B2.
  repeat split; lia.
Qed.

Lemma split_edge_sizes_witness :
  let parts := train_test_split [[1 # 2]%Q] [7] in
  length (X_test parts) = 1%nat
  /\ length (y_test parts) = 1%nat
  /\ ((1 <= 1)%nat -> (1 <= length (X_test parts))%nat)
  /\ (length (X_train parts) = 0%nat <-> (1 <= 1)%nat).
Proof.
  apply (split_edge_sizes [[1 # 2]%Q] [7]). reflexivity.
Defined.

(** ** Loading failures *)

Lemma load_dataset_ok (env : environment) dataset :
  load_dataset env = OK dataset ->
  import_datasets env = OK tt
  /\ exists d, fetch_dataset env = OK d /\ dict_getitem d "train" = OK dataset.
Proof.
  unfold load_dataset. destruct (import_datasets env) as [[]|];
    [|discriminate].
  destruct (fetch_dataset env) as [d|]; [|discriminate].
  simpl. intros H. split; [reflexivity|]. now exists d.
Qed.

(** The loader returns what [load_dataset] says. *)
Lemma load_gtzan_huggingface_value (env : environment) :
  value (load_gtzan_huggingface env) = load_dataset env.
Proof.
  unfold load_gtzan_huggingface, load_dataset. step_run.
  destruct (import_datasets env) as [[]|]; [|reflexivity]. step_run.
  destruct (fetch_dataset env) as [d|]; [|reflexivity]. now step_run.
Qed.

(** X11: when a step of the dataset loader raises, the run ends with that
    exception before the model is loaded, and no file is written.  What
    has been printed tells the step: nothing after the version lines when
    the import of [datasets] fails, the two download lines when the call
    of [load_dataset] fails, and "Dataset loaded" as well when the result
    has no train split. *)
Theorem dataset_failure_aborts (env : environment) (e : exn) :
  load_dataset env = Raise e ->
  main env
  = mkRun (Raise e)
          (banner ++ stdout (check_tensorflow_version (tf_version env))
           ++ match import_datasets env with
              | Raise _ => []
              | OK _ =>
                  [Text "Loading GTZAN dataset via Hugging Face...";
                   Text "(This may download ~1.2GB on first run)"]
                  ++ match fetch_dataset env with
                     | Raise _ => []
                     | OK _ => [Text "Dataset loaded"]
                     end
              end)
          [].
Proof.
  intros H. unfold load_dataset in H.
  unfold main, startup, load_gtzan_huggingface, banner.
  destruct (import_datasets env) as [[]|e1].
  - destruct (fetch_dataset env) as [d|e2].
    + simpl in H. apply run_eq; step_run; rewrite ?H; step_run;
        try reflexivity. now rewrite !app_nil_r.
    + injection H as <-. apply run_eq; step_run; try reflexivity.
      now rewrite !app_nil_r.
  - injection H as <-. apply run_eq; step_run; try reflexivity.
    now rewrite !app_nil_r.
Qed.

Lemma dataset_failure_aborts_witness :
  main offline_env
  = mkRun (Raise ValueError)
          (banner ++ stdout (check_tensorflow_version (2, 15))
           ++ [Text "Loading GTZAN dataset via Hugging Face...";
               Text "(This may download ~1.2GB on first run)"])
          [].
Proof. apply (dataset_failure_aborts offline_env). reflexivity. Defined.

(** The other two failing steps, run. *)
Example dataset_failure_steps :
  main importless_env
  = mkRun (Raise ImportError)
          (banner ++ stdout (check_tensorflow_version (2, 15))) []
  /\ main splitless_env
     = mkRun (Raise KeyError)
             (banner ++ stdout (check_tensorflow_version (2, 15))
              ++ [Text "Loading GTZAN dataset via Hugging Face...";
                  Text "(This may download ~1.2GB on first run)";
                  Text "Dataset loaded"]) [].
Proof. split; reflexivity. Qed.

(** X12: a failure to load the pretrained model, after the dataset has
    loaded, ends the run with that exception before any track is
    processed: the last line printed announces the model, and no file is
    written. *)
Theorem model_failure_aborts (env : environment) dataset (e : exn) :
  load_dataset env = OK dataset ->
  hub_load env = Raise e ->
  main env
  = mkRun (Raise e)
          (banner ++ stdout (check_tensorflow_version (tf_version env))
           ++ [Text "Loading GTZAN dataset via Hugging Face...";
               Text "(This may download ~1.2GB on first run)";
               Text "Dataset loaded";
               Text "Loading YAMNet model..."])
          [].
Proof.
  intros Hd Hm.
  destruct (load_dataset_ok env dataset Hd) as (Hi & d & Hf & Ht).
  unfold main, startup, load_gtzan_huggingface, banner.
  rewrite Hi, Hf, Hm. apply run_eq; step_run; rewrite ?Ht; step_run;
    try reflexivity.
  now rewrite !app_nil_r.
Qed.

Lemma model_failure_aborts_witness :
  main modelless_env
  = mkRun (Raise (ModelError 1))
          (banner ++ stdout (check_tensorflow_version (2, 15))
           ++ [Text "Loading GTZAN dataset via Hugging Face...";
               Text "(This may download ~1.2GB on first run)";
               Text "Dataset loaded";
               Text "Loading YAMNet model..."])
          [].
Proof.
  apply (model_failure_aborts modelless_env fertile_tracks); reflexivity.
Defined.

(** ** The version check *)

(** Decide whether a line is among those printed, in one branch. *)
Ltac line_cases H :=
  simpl in H;
  repeat match type of H with
         | _ \/ _ => destruct H as [H | H]
         | False => contradiction
         | _ = _ => discriminate H
         end.

Ltac line_iff :=
  let H := fresh "Hline" in
  split; intros H;
  [ line_cases H; lia
  | first [ solve [exfalso; lia] | solve [simpl; auto 10] ] ].

(** X13: the version check always returns and writes nothing; it prints
    the version first, the 2.16 warning exactly for version 2.16, the
    "Good!" line exactly for 2.14 and 2.15 (2.16 and later are taken by
    the branches before it), and "Should be compatible." exactly for the
    versions that are not 2.14 or later, a major version other than 2
    included. *)
Theorem version_check_branches (major minor : Z) :
  let r := check_tensorflow_version (major, minor) in
  value r = OK tt
  /\ files r = []
  /\ hd_error (stdout r) = Some (TensorFlowVersion major minor)
  /\ (In (Text "WARNING: TensorFlow 2.16 detected!") (stdout r)
      <-> major = 2 /\ minor = 16)
  /\ (In (TensorFlowCompat major minor
            "Good! Compatible with most Android TFLite versions.")
         (stdout r)
      <-> major = 2 /\ 14 <= minor <= 15)
  /\ (In (TensorFlowCompat major minor "Should be compatible.") (stdout r)
      <-> ~ (major = 2 /\ 14 <= minor)).
Proof.
  intros r. subst r. unfold check_tensorflow_version.
  destruct (Z.eqb_spec major 2) as [Hm | Hm];
  destruct (Z.geb_spec minor 17) as [H17 | H17];
  destruct (Z.eqb_spec minor 16) as [H16 | H16];
  destruct (Z.geb_spec minor 14) as [H14 | H14];
  cbn [andb];
  (split; [reflexivity|]); (split; [reflexivity|]);
  (split; [reflexivity|]);
  (split; [line_iff | split; line_iff]).
Qed.

(** ** The mean over the frames *)

Lemma fold_Qplus_bounds (lo hi : Q) (l : list Q) : forall acc,
  Forall (fun v => lo <= v <= hi)%Q l ->
  (acc + nat_Q (length l) * lo <= fold_left Qplus l acc
   <= acc + nat_Q (length l) * hi)%Q.
Proof.
  induction l as [|v l IH]; intros acc Hall.
  - cbn [length fold_left]. change (nat_Q 0) with 0%Q. split; lra.
  - inversion Hall as [|? ? [Hv1 Hv2] Hl]; subst.
    cbn [fold_left length]. destruct (IH (acc + v)%Q Hl) as [I1 I2].
    pose proof (nat_Q_S (length l)) as HS.
    split.
    + eapply Qle_trans; [|exact I1]. rewrite HS. lra.
    + eapply Qle_trans; [exact I2|]. rewrite HS. lra.
Qed.

Lemma column_bounds (lo hi : Q) (t : tensor2) (j : nat) :
  well_shaped t -> entries_within lo hi t -> (j < shape1 t)%nat ->
  Forall (fun v => lo <= v <= hi)%Q (column t j)
  /\ length (column t j) = shape0 t.
Proof.
  intros [H0 Hrows] Hin Hj. unfold column. split.
  - unfold entries_within in Hin. clear H0.
    induction (rows t) as [|r rs IH]; [constructor|].
    inversion Hrows; inversion Hin; subst. simpl. constructor; auto.
    apply Forall_nth_in; [assumption | lia].
  - now rewrite length_map.
Qed.

(** X14: the averaged embedding stays within the range of the frame
    embeddings: for a tensor of at least one frame whose entries all lie
    in [[lo, hi]], every entry of the mean over the frame axis lies in
    [[lo, hi]]. *)
Theorem reduce_mean_within_bounds (lo hi : Q) (t : tensor2) :
  well_shaped t -> (1 <= shape0 t)%nat -> entries_within lo hi t ->
  Forall (fun v => lo <= v <= hi)%Q (reduce_mean_axis0 t).
Proof.
  intros Hw Hn Hin. unfold reduce_mean_axis0.
  apply Forall_forall. intros v Hv. apply in_map_iff in Hv as (j & <- & Hj).
  apply in_seq in Hj.
  destruct (column_bounds lo hi t j Hw Hin) as [Hc Hlen]; [lia|].
  destruct (fold_Qplus_bounds lo hi (column t j) 0%Q Hc) as [B1 B2].
  rewrite Hlen in B1, B2. fold (nat_Q (shape0 t)). unfold Qsum.
  assert (Hpos : (0 < nat_Q (shape0 t))%Q).
  { unfold nat_Q. change 0%Q with (inject_Z 0). rewrite <- Zlt_Qlt. lia. }
  split.
  - apply Qle_shift_div_l; [exact Hpos | lra].
  - apply Qle_shift_div_r; [exact Hpos | lra].
Qed.

Lemma reduce_mean_within_bounds_witness :
  Forall (fun v => 0 <= v <= 1)%Q
    (reduce_mean_axis0
       (mkTensor2 2 2 [[0 # 1; 1 # 2]; [1 # 1; 1 # 4]]%Q)).
Proof.
  apply reduce_mean_within_bounds.
  - split; [reflexivity | repeat constructor].
  - simpl. lia.
  - repeat constructor; discriminate.
Defined.

(** ** The length of the resampled track in float64 *)

(** Rounding to the nearest integer moves by at most one half. *)
Lemma round_half_even_error (y : Q) :
  (Qabs (inject_Z (round_half_even y) - y) <= 1 # 2)%Q.
Proof.
  unfold round_half_even.
  pose proof (Qfloor_le y) as Hf. pose proof (Qlt_floor y) as Hc.
  rewrite inject_Z_plus in Hc. change (inject_Z 1) with 1%Q in Hc.
  apply Qabs_Qle_condition.
  destruct (Qcompare_spec (y - inject_Z (Qfloor y)) (1 # 2)) as [E | E | E];
    try destruct (Z.even (Qfloor y));
    rewrite ?inject_Z_plus; change (inject_Z 1) with 1%Q;
    split; lra.
Qed.

Lemma pow2_plus (a b : Z) : (pow2 (a + b) == pow2 a * pow2 b)%Q.
Proof. unfold pow2. apply Qpower_plus. discriminate. Qed.

(** The exponent found for a positive rational is not above it. *)
Lemma ilog2_lower (q : Q) : (0 < q)%Q -> (pow2 (ilog2 q) <= q)%Q.
Proof.
  intros Hpos. unfold ilog2.
  set (e0 := Z.log2 (Qnum q) - Z.log2 (Zpos (Qden q))).
  destruct (Qle_bool (pow2 e0) q) eqn:E.
  - now apply Qle_bool_iff.
  - destruct q as [n d]. cbn [Qnum Qden] in e0.
    assert (Hn : 0 < n) by (unfold Qlt in Hpos; simpl in Hpos; lia).
    pose proof (Z.log2_spec n Hn) as [Hn1 _].
    pose proof (Z.log2_spec (Zpos d) eq_refl) as [_ Hd].
    rewrite <- Z.add_1_r in Hd.
    pose proof (Z.log2_nonneg n) as Ha.
    pose proof (Z.log2_nonneg (Zpos d)) as Hb.
    set (a := Z.log2 n) in *. set (b := Z.log2 (Zpos d)) in *.
    assert (Hb1 : 0 <= b + 1) by lia.
    assert (H1 : (pow2 (e0 - 1) * inject_Z (2 ^ (b + 1))
                  == inject_Z (2 ^ a))%Q).
    { rewrite <- (pow2_nonneg_exponent (b + 1) Hb1).
      rewrite <- (pow2_nonneg_exponent a Ha). rewrite <- pow2_plus.
      unfold e0. now replace (a - b - 1 + (b + 1)) with a by lia. }
    assert (H2 : (inject_Z (2 ^ a) <= (n # d) * inject_Z (2 ^ (b + 1)))%Q).
    { unfold Qle, Qmult, inject_Z. simpl.
      assert (0 < 2 ^ a) by (apply Z.pow_pos_nonneg; lia). nia. }
    assert (H3 : (0 < inject_Z (2 ^ (b + 1)))%Q).
    { change 0%Q with (inject_Z 0). rewrite <- Zlt_Qlt.
      apply Z.pow_pos_nonneg; lia. }
    rewrite <- H1 in H2.
    apply Qmult_le_r in H2; assumption.
Qed.

Lemma round_binary_nonneg (prec emin : Z) (q : Q) :
  (0 <= q)%Q -> (0 <= round_binary prec emin q)%Q.
Proof.
  intros H. unfold round_binary. destruct (Qeq_bool q 0); [lra|].
  pose proof (pow2_pos (Z.max (ilog2 (Qabs q)) emin - (prec - 1))) as Hulp.
  set (ulp := pow2 _) in *.
  apply Qmult_le_0_compat; [|lra].
  change 0%Q with (inject_Z 0). rewrite <- Zle_Qle.
  apply round_half_even_ge. change (inject_Z 0) with 0%Q.
  apply Qle_shift_div_l; [exact Hulp | lra].
Qed.

(** The error of one rounding is half the spacing of the format: at most
    [q * 2^-prec] in the normal range, [2^(emin - prec)] below it. *)
Lemma round_binary_error (prec emin : Z) (q : Q) :
  (0 < q)%Q ->
  (Qabs (round_binary prec emin q - q)
   <= q * pow2 (- prec) + pow2 (emin - prec))%Q.
Proof.
  intros Hpos. unfold round_binary.
  destruct (Qeq_bool q 0) eqn:E0.
  { apply Qeq_bool_iff in E0. lra. }
  assert (Habs : Qabs q = q).
  { destruct q as [[|n|n] d]; try reflexivity; now unfold Qlt in Hpos. }
  rewrite Habs.
  pose proof (ilog2_lower q Hpos) as Hlow.
  set (e := Z.max (ilog2 q) emin).
  pose proof (pow2_pos (e - (prec - 1))) as Hulp.
  set (ulp := pow2 (e - (prec - 1))) in *.
  pose proof (round_half_even_error (q / ulp)) as Herr.
  set (m := inject_Z (round_half_even (q / ulp))) in *.
  assert (Hhalf : (Qabs (m * ulp - q) <= (1 # 2) * ulp)%Q).
  { apply Qabs_Qle_condition in Herr. destruct Herr as [H1 H2].
    apply Qabs_Qle_condition.
    assert (Hq : (q == (q / ulp) * ulp)%Q) by (field; lra).
    split.
    - apply (Qmult_le_compat_r _ _ ulp) in H1; [|lra].
      setoid_replace ((m - q / ulp) * ulp)%Q
        with (m * ulp - q / ulp * ulp)%Q in H1 by ring.
      rewrite <- Hq in H1. lra.
    - apply (Qmult_le_compat_r _ _ ulp) in H2; [|lra].
      setoid_replace ((m - q / ulp) * ulp)%Q
        with (m * ulp - q / ulp * ulp)%Q in H2 by ring.
      rewrite <- Hq in H2. lra. }
  eapply Qle_trans; [exact Hhalf|].
  assert (Hu : ((1 # 2) * ulp == pow2 (e - prec))%Q).
  { unfold ulp. replace (e - prec) with (-1 + (e - (prec - 1))) by lia.
    rewrite pow2_plus. reflexivity. }
  rewrite Hu.
  pose proof (pow2_pos (- prec)) as Hp.
  pose proof (pow2_pos (emin - prec)) as Hm.
  unfold e. destruct (Z.max_spec (ilog2 q) emin) as [[_ ->] | [_ ->]].
  - assert (0 <= q * pow2 (- prec))%Q by (apply Qmult_le_0_compat; lra).
    lra.
  - replace (ilog2 q - prec) with (ilog2 q + - prec) by lia.
    rewrite pow2_plus.
    assert (pow2 (ilog2 q) * pow2 (- prec) <= q * pow2 (- prec))%Q
      by (apply Qmult_le_compat_r; lra).
    lra.
Qed.

Lemma float64_error (q : Q) :
  (0 <= q)%Q ->
  (0 <= float64 q)%Q
  /\ (Qabs (float64 q - q) <= q * pow2 (-53) + pow2 (-1075))%Q.
Proof.
  intros H. split; [now apply round_binary_nonneg|].
  destruct (Qlt_le_dec 0 q) as [Hpos | Hz].
  - exact (round_binary_error 53 (-1022) q Hpos).
  - assert (E : Qeq_bool q 0 = true) by (apply Qeq_bool_iff; lra).
    unfold float64, round_binary. rewrite E.
    pose proof (pow2_pos (-53)). pose proof (pow2_pos (-1075)).
    assert (Hq : (q == 0)%Q) by lra. rewrite Hq.
    apply Qabs_Qle_condition. split; lra.
Qed.

(** Rounding in float64, run: one tenth, and the lengths of three tracks.
    The quotient [49 * 16000 / 98000] is 8 and [5507 * 16000 / 44056] is
    2000, but the rounded products fall below them. *)
Example float64_values :
  Qred (float64 (1 # 10)) = (3602879701896397 # 36028797018963968)%Q
  /\ new_len_float64 661500 22050 = OK 480000
  /\ new_len_float64 49 98000 = OK 7
  /\ new_len_float64 5507 44056 = OK 1999.
Proof. vm_compute. repeat split. Qed.

(** X15: for a track of at most [2^32] samples at a positive rate of at
    most [2^32] Hz, the length that float64 arithmetic gives the resampled
    track is the quotient (16000 * L) div R of exact arithmetic, except
    that it can be one less when R divides 16000 * L. *)
Theorem new_len_float64_quotient (L R : Z) :
  0 <= L <= 2 ^ 32 -> 0 < R <= 2 ^ 32 ->
  exists n, new_len_float64 L R = OK n
    /\ (n = 16000 * L / R
        \/ (n = 16000 * L / R - 1 /\ (16000 * L) mod R = 0)).
Proof.
  intros HL HR. unfold new_len_float64, py_truediv.
  destruct (R =? 0) eqn:ER; [lia|]. cbn [bind].
  eexists. split; [reflexivity|].
  set (r := inject_Z R). set (l := inject_Z L).
  assert (Hr : (0 < r)%Q)
    by (unfold r; change 0%Q with (inject_Z 0); rewrite <- Zlt_Qlt; lia).
  assert (Hr2 : (r <= 4294967296)%Q)
    by (unfold r; change 4294967296%Q with (inject_Z (2 ^ 32));
        rewrite <- Zle_Qle; lia).
  assert (Hl : (0 <= l)%Q)
    by (unfold l; change 0%Q with (inject_Z 0); rewrite <- Zle_Qle; lia).
  assert (Hl2 : (l <= 4294967296)%Q)
    by (unfold l; change 4294967296%Q with (inject_Z (2 ^ 32));
        rewrite <- Zle_Qle; lia).
  set (a := (inject_Z 16000 / r)%Q).
  assert (Ha : (0 <= a)%Q).
  { unfold a. apply Qle_shift_div_l; [exact Hr|].
    change (inject_Z 16000) with (16000 # 1)%Q. lra. }
  destruct (float64_error a Ha) as [Haf0 Haf].
  set (af := float64 a) in *.
  assert (Hp : (0 <= l * af)%Q) by (apply Qmult_le_0_compat; assumption).
  destruct (float64_error (l * af)%Q Hp) as [Hpf0 Hpf].
  set (pf := float64 (l * af)) in *.
  rewrite (py_int_nonneg pf Hpf0).
  assert (Eu : (pow2 (-53) == 1 # 9007199254740992)%Q) by reflexivity.
  assert (Eh : (pow2 (-1075) <= 1 # 1208925819614629174706176)%Q).
  { vm_compute. discriminate. }
  pose proof (pow2_pos (-1075)) as Hh0.
  rewrite Eu in Haf, Hpf. set (h := pow2 (-1075)) in *.
  apply Qabs_Qle_condition in Haf. apply Qabs_Qle_condition in Hpf.
  assert (Hra : (r * (l * a) == 16000 * l)%Q).
  { unfold a. change (inject_Z 16000) with (16000 # 1)%Q. field. lra. }
  set (x := (l * a)%Q) in *.
  assert (Hx : (0 <= x)%Q) by (apply Qmult_le_0_compat; assumption).
  (* the rounding of the quotient, times the length *)
  assert (H1 : (- (x * (1 # 9007199254740992) + 4294967296 * h)
                <= l * af - x
                <= x * (1 # 9007199254740992) + 4294967296 * h)%Q).
  { unfold x. nra. }
  set (p := (l * af)%Q) in *.
  (* with the rounding of the product *)
  assert (H2 : (- (x * (3 # 9007199254740992) + (1 # 1000000000000))
                <= pf - x
                <= x * (3 # 9007199254740992) + (1 # 1000000000000))%Q)
    by (split; lra).
  clearbody p pf af. clear Haf Hpf H1 Hp Haf0.
  assert (H3 : (- (1 # 2) <= r * pf - 16000 * l <= 1 # 2)%Q).
  { rewrite <- Hra. split; nra. }
  pose proof (Qfloor_le pf) as Hn1. pose proof (Qlt_floor pf) as Hn2.
  set (n := Qfloor pf) in *.
  rewrite inject_Z_plus in Hn2. change (inject_Z 1) with 1%Q in Hn2.
  assert (Hup : R * n < 16000 * L + 1).
  { rewrite Zlt_Qlt, inject_Z_plus, !inject_Z_mult. fold r l.
    change (inject_Z 16000) with 16000%Q. change (inject_Z 1) with 1%Q.
    assert (r * inject_Z n <= r * pf)%Q by (apply Qmult_le_l; assumption).
    lra. }
  assert (Hdown : 16000 * L - 1 < R * (n + 1)).
  { rewrite Zlt_Qlt. unfold Z.sub.
    rewrite !inject_Z_plus, !inject_Z_mult, !inject_Z_plus. fold r l.
    change (inject_Z 16000) with 16000%Q. change (inject_Z 1) with 1%Q.
    change (inject_Z (- (1))) with (-1 # 1)%Q.
    assert (r * pf < r * (inject_Z n + 1))%Q
      by (apply Qmult_lt_l; assumption).
    lra. }
  pose proof (Z.div_mod (16000 * L) R ltac:(lia)) as Hdm.
  pose proof (Z.mod_pos_bound (16000 * L) R ltac:(lia)) as Hm.
  set (q := 16000 * L / R) in *. set (m := (16000 * L) mod R) in *.
  assert (n <= q) by nia.
  assert (q - 1 <= n) by nia.
  destruct (Z.eq_dec n q) as [-> | Hne]; [now left | right].
  split; [lia | nia].
Qed.

Lemma new_len_float64_quotient_witness :
  exists n, new_len_float64 49 98000 = OK n
    /\ (n = 16000 * 49 / 98000
        \/ (n = 16000 * 49 / 98000 - 1 /\ (16000 * 49) mod 98000 = 0)).
Proof. apply (new_len_float64_quotient 49 98000); lia. Defined.
